(** * CheckSyntaxPlugin: a shallow embedding of [src/CheckSyntaxPlugin.ts]

    The plugin hooks into the bundler's [afterEmit] stage.  Each time the
    hook fires it collects the emitted HTML and JavaScript files, checks
    every one of them under the configured ECMAScript version, and prints
    the accumulated syntax errors.

    The embedding keeps the shape of the TypeScript class: a record for the
    instance fields, one function per method, and a small interleaving
    machine for the [async] parts, whose atomic steps are the code segments
    between two [await]s. *)

From stdpp Require Import base list strings.
From Stdlib Require Import Ascii.

(** ** Results of fallible calls *)

(** A call either returns normally or throws (for a promise: resolves or
    rejects). *)
Inductive result (E A : Type) : Type :=
  | Ok (a : A)
  | Err (e : E).
Arguments Ok {E A} a.
Arguments Err {E A} e.

(** ** Strings and the two file-type patterns *)

(** [name.split('?')[0]]: everything before the first question mark. *)
Fixpoint strip_query (name : string) : string :=
  match name with
  | EmptyString => EmptyString
  | String c rest =>
      if Ascii.eqb c "?"%char then EmptyString
      else String c (strip_query rest)
  end.

(** A pattern of the form [/lit$/] tests whether the subject ends with the
    literal. *)
Fixpoint ends_with (suf s : string) : bool :=
  String.eqb s suf ||
  match s with
  | EmptyString => false
  | String _ rest => ends_with suf rest
  end.

(** [HTML_REGEX = /\.html$/] *)
Definition HTML_REGEX (s : string) : bool := ends_with ".html"%string s.

(** [JS_REGEX = /\.(?:js|mjs|cjs|jsx)$/] *)
Definition JS_REGEX (s : string) : bool :=
  ends_with ".js"%string s || ends_with ".mjs"%string s
  || ends_with ".cjs"%string s || ends_with ".jsx"%string s.

(** ** Path resolution

    [resolve] of [node:path] on a POSIX system, for the call the hook makes:
    two segments, [resolve(from, to)].  The segments are taken from the
    right until one is absolute, and the working directory, which is
    absolute, comes last; the pieces are joined and normalised: empty names
    and [.] are dropped, [..] leaves the directory it is in (the root has
    none to leave), and the result starts with a slash and ends with none. *)

(** The names between the slashes of a path. *)
Fixpoint split_path (s : string) : list string :=
  match s with
  | EmptyString => [EmptyString]
  | String c rest =>
      if Ascii.eqb c "/"%char then EmptyString :: split_path rest
      else
        match split_path rest with
        | seg :: segs => String c seg :: segs
        | [] => [String c EmptyString]
        end
  end.

(** A name that stands for an entry: not empty and not [.]. *)
Definition is_name (seg : string) : bool :=
  negb (String.eqb seg "" || String.eqb seg ".").

(** From the directory [dir], given by the names that lead to it from the
    root, follow one name. *)
Definition enter (dir : list string) (seg : string) : list string :=
  if String.eqb seg ".." then removelast dir
  else if is_name seg then dir ++ [seg]
  else dir.

Definition walk (dir : list string) (segs : list string) : list string :=
  fold_left enter segs dir.

(** The absolute path of a directory. *)
Definition render (dir : list string) : string :=
  String.append "/" (String.concat "/" dir).

Definition is_absolute (s : string) : bool :=
  match s with
  | String c _ => Ascii.eqb c "/"%char
  | EmptyString => false
  end.

(** The directory [from] stands for when the working directory is [cwd]. *)
Definition resolve_dir (cwd : list string) (from : string) : list string :=
  walk (if is_absolute from then [] else cwd) (split_path from).

(** [resolve(from, to)] in the working directory [cwd]. *)
Definition posix_resolve (cwd : list string) (from to : string) : string :=
  render (walk (if is_absolute to then [] else resolve_dir cwd from)
            (split_path to)).

(** ** Collaborators

    Everything the class imports: the grammar parser, the file system, path
    resolution, and the helper modules of the repository.  Their
    implementations are not part of the checked file, so they are taken as
    an interface. *)
Class Host : Type := {
  (** values thrown by the file system *)
  Exn : Type;
  (** [Rspack] asset contents *)
  Source : Type;
  (** the [EcmaVersion] union of [types.ts]; none of its members is falsy *)
  EcmaVersion : Type;
  AcornParseError : Type;
  ECMASyntaxError : Type;
  CheckSyntaxExclude : Type;
  (** [resolve] of [node:path], applied to two segments *)
  resolve : string -> string -> string;
  (** [checkIsExclude] of [utils.ts]; the rule may be [undefined] *)
  checkIsExclude : string -> option CheckSyntaxExclude -> bool;
  (** [generateHtmlScripts]: reads the document, returns its inline scripts *)
  generateHtmlScripts : string -> result Exn (list string);
  (** [fs.promises.readFile(path, 'utf-8')] *)
  readFile : string -> result Exn string;
  (** [parse] of [acorn]: returns a tree (discarded by the caller) or throws *)
  parse : string -> EcmaVersion -> result AcornParseError unit;
  (** [generateError { err, code, filepath, exclude, rootPath }]: a finished
      error, or [null] when the error is excluded *)
  generateError :
    AcornParseError -> string -> string -> option CheckSyntaxExclude ->
    string -> option ECMASyntaxError;
  (** [printErrors(errors, ecmaVersion)] of [printErrors.ts]: prints the
      list; the caller does not guard the call, so what it throws is kept *)
  printErrors : list ECMASyntaxError -> EcmaVersion -> result Exn unit;
}.

Section Plugin.
Context `{H : Host}.

(** ** The instance and its constructor *)

Record CheckSyntaxPlugin : Type := mkPlugin {
  errors : list ECMASyntaxError;
  ecmaVersion : EcmaVersion;
  targets : list string;
  rootPath : string;
  exclude : option CheckSyntaxExclude;
  excludeOutput : option CheckSyntaxExclude;
}.

(** [this.errors.push(error)] *)
Definition push_error (p : CheckSyntaxPlugin) (d : ECMASyntaxError)
  : CheckSyntaxPlugin :=
  {| errors := errors p ++ [d];
     ecmaVersion := ecmaVersion p;
     targets := targets p;
     rootPath := rootPath p;
     exclude := exclude p;
     excludeOutput := excludeOutput p |}.

(** The constructor's argument. [targets] and [rootPath] are required. *)
Record CheckSyntaxOptions : Type := mkOptions {
  opt_targets : list string;
  opt_exclude : option CheckSyntaxExclude;
  opt_excludeOutput : option CheckSyntaxExclude;
  opt_rootPath : string;
  opt_ecmaVersion : option EcmaVersion;
}.

Section Constructor.
(** [browserslistToESVersion]: throws on a query it does not know. *)
Context {ConfigError : Type}.
Variable browserslistToESVersion :
  list string -> result ConfigError EcmaVersion.

(** [options.ecmaVersion || browserslistToESVersion(this.targets)]: the
    right operand is evaluated only when the left one is [undefined]. *)
Definition new_CheckSyntaxPlugin (options : CheckSyntaxOptions)
  : result ConfigError CheckSyntaxPlugin :=
  let build v :=
    {| errors := [];
       ecmaVersion := v;
       targets := opt_targets options;
       rootPath := opt_rootPath options;
       exclude := opt_exclude options;
       excludeOutput := opt_excludeOutput options |} in
  match opt_ecmaVersion options with
  | Some v => Ok (build v)
  | None =>
      match browserslistToESVersion (opt_targets options) with
      | Ok v => Ok (build v)
      | Err e => Err e
      end
  end.
End Constructor.

(** ** Collecting the emitted files *)

Record Asset : Type := mkAsset {
  name : string;
  source : option Source;
}.

(** What the hook reads from [compilation]: [outputOptions.path] and
    [getAssets()]. *)
Record Compilation : Type := mkCompilation {
  outputOptions_path : option string;
  getAssets : list Asset;
}.

(** [compilation.outputOptions.path || 'dist']: the empty string is falsy
    too. *)
Definition outputPath (c : Compilation) : string :=
  match outputOptions_path c with
  | Some EmptyString | None => "dist"%string
  | Some path => path
  end.

(** The body of [.map((a) => ...)], with the two collaborators it calls
    made explicit. *)
Definition asset_file (res : string -> string -> string)
    (excluded : string -> bool) (out : string) (a : Asset) : string :=
  let resourcePath := strip_query (name a) in
  let file := res out resourcePath in
  if negb (excluded file) then file else ""%string.

Definition has_source (a : Asset) : bool :=
  match source a with Some _ => true | None => false end.

(** [getAssets().filter((a) => a.source).map(...)], then the file-type
    filter. *)
Definition collect (res : string -> string -> string)
    (excluded : string -> bool) (out : string) (assets : list Asset)
  : list string :=
  let emittedAssets :=
    map (asset_file res excluded out) (List.filter has_source assets) in
  List.filter (fun f => HTML_REGEX f || JS_REGEX f) emittedAssets.

Definition files (p : CheckSyntaxPlugin) (c : Compilation) : list string :=
  collect resolve (fun f => checkIsExclude f (excludeOutput p))
    (outputPath c) (getAssets c).

(** ** [tryParse] *)

(** The [try] block: [parse(code, { ecmaVersion: this.ecmaVersion })].
    The tree is dropped; a thrown value is caught and kept. *)
Definition tryParse_try (p : CheckSyntaxPlugin) (code : string)
  : option AcornParseError :=
  match parse code (ecmaVersion p) with
  | Ok _ => None
  | Err err => Some err
  end.

(** The [catch] block after its [await generateError(...)] has resolved:
    [if (error) this.errors.push(error)]. *)
Definition tryParse_catch (p : CheckSyntaxPlugin) (filepath code : string)
    (err : AcornParseError) : CheckSyntaxPlugin :=
  match generateError err code filepath (exclude p) (rootPath p) with
  | Some error => push_error p error
  | None => p
  end.

(** [tryParse] from call to completion, as the promise it returns settles. *)
Definition tryParse (p : CheckSyntaxPlugin) (filepath code : string)
  : result Exn CheckSyntaxPlugin :=
  match tryParse_try p code with
  | None => Ok p
  | Some err => Ok (tryParse_catch p filepath code err)
  end.

(** ** The asynchronous part

    [check] and the hook body are [async]: they run until an [await], are
    suspended, and are resumed later, one at a time, in an order the
    scheduler picks.  A suspended call is a [task]; resuming it runs the
    code up to its next [await]. *)

(** What can be observed of a run. *)
Inductive event : Type :=
  | EvExtract (filepath : string)             (* generateHtmlScripts called *)
  | EvRead (filepath : string)                (* readFile called *)
  | EvParse (filepath code : string) (v : EcmaVersion)   (* parse called *)
  | EvPush (filepath : string) (error : ECMASyntaxError) (* errors.push *)
  | EvReport (errs : list ECMASyntaxError) (v : EcmaVersion). (* printErrors *)

(** One element of the inner [Promise.all(htmlScripts.map(...))]: suspended
    in [tryParse] at [await generateError], or resolved. *)
Inductive fragment : Type :=
  | FBuild (code : string) (err : AcornParseError)
  | FDone.

(** One element of the outer [Promise.all(files.map(...))]: a call
    [this.check(file)] and where it is suspended.
    - [THtml]: at [await generateHtmlScripts(filepath)];
    - [TScripts]: at the inner [Promise.all], with its fragments;
    - [TRead]: at [await fs.promises.readFile(filepath, 'utf-8')];
    - [TBuild]: in the [tryParse] of a script, at [await generateError];
    - [TDone], [TRejected]: resolved, rejected. *)
Inductive task : Type :=
  | THtml (filepath : string)
  | TScripts (filepath : string) (fs : list fragment)
  | TRead (filepath : string)
  | TBuild (filepath code : string) (err : AcornParseError)
  | TDone
  | TRejected (e : Exn).

Definition is_done (t : task) : bool :=
  match t with TDone => true | _ => false end.

Definition fragment_done (f : fragment) : bool :=
  match f with FDone => true | FBuild _ _ => false end.

(** A call of [tryParse] up to its first suspension. *)
Definition tryParse_enter (p : CheckSyntaxPlugin) (filepath code : string)
  : fragment * list event :=
  match tryParse_try p code with
  | None => (FDone, [EvParse filepath code (ecmaVersion p)])
  | Some err => (FBuild code err, [EvParse filepath code (ecmaVersion p)])
  end.

(** A suspended [tryParse] resumed: the rest of the [catch] block. *)
Definition tryParse_resume (p : CheckSyntaxPlugin) (filepath code : string)
    (err : AcornParseError) : CheckSyntaxPlugin * list event :=
  match generateError err code filepath (exclude p) (rootPath p) with
  | Some error => (push_error p error, [EvPush filepath error])
  | None => (p, [])
  end.

(** The callback of [htmlScripts.map]:
    [if (!checkIsExclude(filepath, this.exclude)) await this.tryParse(...)]. *)
Definition fragment_start (p : CheckSyntaxPlugin) (filepath script : string)
  : fragment * list event :=
  if negb (checkIsExclude filepath (exclude p))
  then tryParse_enter p filepath script
  else (FDone, []).

(** The second [if] of [check]: [JS_REGEX.test(filepath)], then the call of
    [readFile]. *)
Definition check_js (filepath : string) : task * list event :=
  if JS_REGEX filepath then (TRead filepath, [EvRead filepath])
  else (TDone, []).

(** The first [if] of [check]: [HTML_REGEX.test(filepath)], then the call
    of [generateHtmlScripts]. *)
Definition check_start (filepath : string) : task * list event :=
  if HTML_REGEX filepath then (THtml filepath, [EvExtract filepath])
  else check_js filepath.

(** Resume a suspended task. [j] picks the fragment to resume when the task
    waits at the inner [Promise.all]. [None]: nothing to resume. *)
Definition task_step (p : CheckSyntaxPlugin) (j : nat) (t : task)
  : option (task * CheckSyntaxPlugin * list event) :=
  match t with
  | THtml f =>
      match generateHtmlScripts f with
      | Err e => Some (TRejected e, p, [])
      | Ok htmlScripts =>
          let started := map (fragment_start p f) htmlScripts in
          Some (TScripts f (map fst started), p, concat (map snd started))
      end
  | TScripts f fs =>
      if forallb fragment_done fs then
        let '(t', evs) := check_js f in Some (t', p, evs)
      else
        match fs !! j with
        | Some (FBuild code err) =>
            let '(p', evs) := tryParse_resume p f code err in
            Some (TScripts f (<[j := FDone]> fs), p', evs)
        | _ => None
        end
  | TRead f =>
      match readFile f with
      | Err e => Some (TRejected e, p, [])
      | Ok jsScript =>
          match tryParse_enter p f jsScript with
          | (FDone, evs) => Some (TDone, p, evs)
          | (FBuild code err, evs) => Some (TBuild f code err, p, evs)
          end
      end
  | TBuild f code err =>
      let '(p', evs) := tryParse_resume p f code err in
      Some (TDone, p', evs)
  | TDone | TRejected _ => None
  end.

(** The promise returned by the [afterEmit] callback. *)
Inductive hook_state : Type :=
  | Idle                 (* never called *)
  | Running              (* pending, at [await Promise.all(...)] *)
  | Resolved             (* [printErrors] was called and returned *)
  | Rejected (e : Exn).  (* a check rejected, or [printErrors] threw *)

Definition is_running (h : hook_state) : bool :=
  match h with Running => true | _ => false end.

(** The instance, the checks of the current run, the checks left over from
    earlier runs, and the state of the current run. *)
Record world : Type := mkWorld {
  plugin : CheckSyntaxPlugin;
  pool : list task;
  stale : list task;
  hook : hook_state;
}.

Inductive action : Type :=
  | AStart (c : Compilation)   (* the bundler fires [afterEmit] *)
  | AResume (i j : nat)        (* resume check [i] of the current run *)
  | AStale (i j : nat)         (* resume check [i] of an earlier run *)
  | AReport.                   (* [Promise.all] resolved: resume the hook *)

(** The last statement of the callback,
    [printErrors(this.errors, this.ecmaVersion)]: the callback is [async]
    and the call is not in a [try], so the promise resolves when the call
    returns and rejects with what it throws. *)
Definition report (p : CheckSyntaxPlugin) : hook_state :=
  match printErrors (errors p) (ecmaVersion p) with
  | Ok _ => Resolved
  | Err e => Rejected e
  end.

(** [Promise.all] rejects with the first rejection it sees. *)
Definition settle (h : hook_state) (t : task) : hook_state :=
  match h, t with
  | Running, TRejected e => Rejected e
  | _, _ => h
  end.

(** One atomic step.
    - [AStart c]: the callback passed to [tapPromise] runs up to its
      [await]: it collects the files and calls [this.check] on each, in
      order; every call runs up to its first [await].  The bundler awaits
      the callback's promise, so the hook does not fire while it is
      pending.  Checks that an earlier, rejected run left suspended stay
      alive.
    - [AResume i j], [AStale i j]: one suspended check is resumed; a check
      that rejects makes the pending [Promise.all], and so the hook, reject.
    - [AReport]: every promise handed to [Promise.all] has resolved; the
      callback resumes and calls
      [printErrors(this.errors, this.ecmaVersion)], which settles its
      promise. *)
Definition step (a : action) (w : world) : option (world * list event) :=
  match a with
  | AStart c =>
      if is_running (hook w) then None
      else
        let started := map check_start (files (plugin w) c) in
        Some ({| plugin := plugin w;
                 pool := map fst started;
                 stale := stale w ++ pool w;
                 hook := Running |},
              concat (map snd started))
  | AResume i j =>
      match pool w !! i with
      | None => None
      | Some t =>
          match task_step (plugin w) j t with
          | None => None
          | Some (t', p', evs) =>
              Some ({| plugin := p';
                       pool := <[i := t']> (pool w);
                       stale := stale w;
                       hook := settle (hook w) t' |}, evs)
          end
      end
  | AStale i j =>
      match stale w !! i with
      | None => None
      | Some t =>
          match task_step (plugin w) j t with
          | None => None
          | Some (t', p', evs) =>
              Some ({| plugin := p';
                       pool := pool w;
                       stale := <[i := t']> (stale w);
                       hook := hook w |}, evs)
          end
      end
  | AReport =>
      if is_running (hook w) && forallb is_done (pool w) then
        Some ({| plugin := plugin w;
                 pool := pool w;
                 stale := stale w;
                 hook := report (plugin w) |},
              [EvReport (errors (plugin w)) (ecmaVersion (plugin w))])
      else None
  end.

(** A schedule is a list of actions; [exec] follows it and collects the
    events.  [None]: some action of the schedule is not enabled. *)
Fixpoint exec (acts : list action) (w : world)
  : option (world * list event) :=
  match acts with
  | [] => Some (w, [])
  | a :: rest =>
      match step a w with
      | None => None
      | Some (w1, evs1) =>
          match exec rest w1 with
          | None => None
          | Some (w2, evs2) => Some (w2, evs1 ++ evs2)
          end
      end
  end.

(** A freshly constructed instance whose hook never fired. *)
Definition init (p : CheckSyntaxPlugin) : world :=
  {| plugin := p; pool := []; stale := []; hook := Idle |}.

Definition is_start (a : action) : bool :=
  match a with AStart _ => true | _ => false end.

(** ** Ghost functions used by the statements *)

Definition option_list {A} (o : option A) : list A :=
  match o with Some a => [a] | None => [] end.

(** The errors a parse of [code] for [filepath] ends up pushing. *)
Definition parse_errors (p : CheckSyntaxPlugin) (filepath code : string)
  : list ECMASyntaxError :=
  match tryParse_try p code with
  | None => []
  | Some err =>
      option_list (generateError err code filepath (exclude p) (rootPath p))
  end.

Definition fragment_pending (p : CheckSyntaxPlugin) (filepath : string)
    (f : fragment) : list ECMASyntaxError :=
  match f with
  | FBuild code err =>
      option_list (generateError err code filepath (exclude p) (rootPath p))
  | FDone => []
  end.

Definition read_pending (p : CheckSyntaxPlugin) (filepath : string)
  : list ECMASyntaxError :=
  match readFile filepath with
  | Ok jsScript => parse_errors p filepath jsScript
  | Err _ => []
  end.

Definition js_pending (p : CheckSyntaxPlugin) (filepath : string)
  : list ECMASyntaxError :=
  if JS_REGEX filepath then read_pending p filepath else [].

(** The errors a task will still push if it is resumed until it settles. *)
Definition pending (p : CheckSyntaxPlugin) (t : task)
  : list ECMASyntaxError :=
  match t with
  | THtml f =>
      match generateHtmlScripts f with
      | Ok htmlScripts =>
          (if checkIsExclude f (exclude p) then []
           else concat (map (parse_errors p f) htmlScripts))
          ++ js_pending p f
      | Err _ => []
      end
  | TScripts f fs => concat (map (fragment_pending p f) fs) ++ js_pending p f
  | TRead f => read_pending p f
  | TBuild f code err =>
      option_list (generateError err code f (exclude p) (rootPath p))
  | TDone | TRejected _ => []
  end.

(** The errors one whole check of [filepath] pushes. *)
Definition check_errors (p : CheckSyntaxPlugin) (filepath : string)
  : list ECMASyntaxError :=
  pending p (fst (check_start filepath)).

(** The file an event is about. *)
Definition event_file (ev : event) : option string :=
  match ev with
  | EvExtract f | EvRead f | EvParse f _ _ | EvPush f _ => Some f
  | EvReport _ _ => None
  end.

(** The grammar version an event carries. *)
Definition event_version (ev : event) : option EcmaVersion :=
  match ev with
  | EvParse _ _ v | EvReport _ v => Some v
  | _ => None
  end.

(** The errors a list of events pushed. *)
Definition pushed (evs : list event) : list ECMASyntaxError :=
  concat (map (fun ev => match ev with EvPush _ d => [d] | _ => [] end) evs).

(** The errors a list of tasks will still push. *)
Definition owed (p : CheckSyntaxPlugin) (ts : list task)
  : list ECMASyntaxError :=
  concat (map (pending p) ts).

(** The file a task checks. *)
Definition task_file (t : task) : option string :=
  match t with
  | THtml f | TScripts f _ | TRead f | TBuild f _ _ => Some f
  | TDone | TRejected _ => None
  end.

(** Two states of one instance: every field but [errors] agrees. *)
Definition same_config (p p' : CheckSyntaxPlugin) : Prop :=
  ecmaVersion p' = ecmaVersion p /\ targets p' = targets p /\
  rootPath p' = rootPath p /\ exclude p' = exclude p /\
  excludeOutput p' = excludeOutput p.

(** A path that passes Collecting. *)
Definition admitted (p : CheckSyntaxPlugin) (f : string) : Prop :=
  checkIsExclude f (excludeOutput p) = false /\
  HTML_REGEX f || JS_REGEX f = true.

(** A task for a file that passed Collecting, on the branch of [check] that
    fits its type. *)
Definition task_ok (p : CheckSyntaxPlugin) (t : task) : Prop :=
  match t with
  | THtml f | TScripts f _ => admitted p f /\ HTML_REGEX f = true
  | TRead f | TBuild f _ _ => admitted p f /\ JS_REGEX f = true
  | TDone | TRejected _ => True
  end.

Definition world_ok (w : world) : Prop :=
  Forall (task_ok (plugin w)) (pool w) /\
  Forall (task_ok (plugin w)) (stale w).

(** A check that has resolved or rejected. *)
Definition is_settled (t : task) : bool :=
  match t with TDone | TRejected _ => true | _ => false end.

(** The accounting of one run, against the instant its hook fired: [E0] is
    the error list then, [P0] what the checks of the run were to push, [S0]
    what checks of earlier runs were still to push, [n] the number of
    checks dispatched.  The list now is [E0], plus what the run's checks
    pushed so far, plus what the earlier checks pushed meanwhile. *)
Definition run_inv (p0 : CheckSyntaxPlugin) (E0 P0 S0 : list ECMASyntaxError)
    (n : nat) (w : world) : Prop :=
  same_config p0 (plugin w) /\
  length (pool w) = n /\
  exists pushed_now pushed_stale,
    errors (plugin w) ≡ₚ E0 ++ pushed_now ++ pushed_stale /\
    pushed_now ++ owed p0 (pool w) ≡ₚ P0 /\
    pushed_stale ++ owed p0 (stale w) ≡ₚ S0.

(** The check of [f] waits for its read or has rejected. *)
Definition stuck_on (f : string) (t : task) : Prop :=
  match t with
  | TRead g => g = f
  | TRejected _ => True
  | _ => False
  end.

(** A run in which the read of [f] fails: its hook is pending or rejected,
    a pending hook has seen no rejection yet, and the check of [f] never
    resolves. *)
Definition failing_run (f : string) (w : world) : Prop :=
  match hook w with
  | Running => Forall (fun t => forall e, t <> TRejected e) (pool w)
  | Rejected _ => True
  | Idle | Resolved => False
  end /\
  Exists (stuck_on f) (pool w).

(** How many resumptions a task still needs before it settles. *)
Definition fragment_remaining (f : fragment) : nat :=
  match f with FBuild _ _ => 1 | FDone => 0 end.

Definition read_remaining (p : CheckSyntaxPlugin) (filepath : string) : nat :=
  match readFile filepath with
  | Err _ => 1
  | Ok jsScript =>
      match tryParse_try p jsScript with None => 1 | Some _ => 2 end
  end.

Definition js_remaining (p : CheckSyntaxPlugin) (filepath : string) : nat :=
  if JS_REGEX filepath then read_remaining p filepath else 0.

Definition remaining (p : CheckSyntaxPlugin) (t : task) : nat :=
  match t with
  | THtml f =>
      match generateHtmlScripts f with
      | Err _ => 1
      | Ok htmlScripts =>
          2 + list_sum (map fragment_remaining
                          (map fst (map (fragment_start p f) htmlScripts)))
            + js_remaining p f
      end
  | TScripts f fs => 1 + list_sum (map fragment_remaining fs) + js_remaining p f
  | TRead f => read_remaining p f
  | TBuild _ _ _ => 1
  | TDone | TRejected _ => 0
  end.

Definition workload (p : CheckSyntaxPlugin) (ts : list task) : nat :=
  list_sum (map (remaining p) ts).

(** A pending hook has seen no check reject. *)
Definition no_rejection_seen (w : world) : Prop :=
  hook w = Running -> Forall (fun t => forall e, t <> TRejected e) (pool w).

(** An action that belongs to the current run. *)
Definition in_run (a : action) : bool := negb (is_start a).

(** ** More ghost functions: what Collecting keeps, and why a task exists *)

(** The path an asset stands for: its name, up to the query, resolved
    against the output directory. *)
Definition asset_path (out : string) (a : Asset) : string :=
  resolve out (strip_query (name a)).

(** The asset survives both filters of the hook and the exclusion in
    between. *)
Definition collected (p : CheckSyntaxPlugin) (out : string) (a : Asset)
  : bool :=
  has_source a
  && negb (checkIsExclude (asset_path out a) (excludeOutput p))
  && (HTML_REGEX (asset_path out a) || JS_REGEX (asset_path out a)).

(** The call that opens a collected file. *)
Definition open_event (f : string) : event :=
  if HTML_REGEX f then EvExtract f else EvRead f.

Definition is_open (ev : event) : bool :=
  match ev with EvExtract _ | EvRead _ => true | _ => false end.

Definition is_report (ev : event) : bool :=
  match ev with EvReport _ _ => true | _ => false end.

Definition is_resume (a : action) : bool :=
  match a with AResume _ _ => true | _ => false end.

(** [code] is what gets parsed for [f]: the content of a script, or a
    fragment of a document that [exclude] does not match. *)
Definition content (p : CheckSyntaxPlugin) (f code : string) : Prop :=
  (JS_REGEX f = true /\ readFile f = Ok code) \/
  (HTML_REGEX f = true /\ checkIsExclude f (exclude p) = false /\
   exists htmlScripts,
     generateHtmlScripts f = Ok htmlScripts /\ In code htmlScripts).

(** The error [d] pushed for [f] is what [generateError] made of a failed
    parse of the content of [f]. *)
Definition justified (p : CheckSyntaxPlugin) (f : string)
    (d : ECMASyntaxError) : Prop :=
  exists code err,
    content p f code /\
    parse code (ecmaVersion p) = Err err /\
    generateError err code f (exclude p) (rootPath p) = Some d.

Definition fragment_sound (p : CheckSyntaxPlugin) (f : string)
    (htmlScripts : list string) (fr : fragment) : Prop :=
  match fr with
  | FBuild code err =>
      In code htmlScripts /\ parse code (ecmaVersion p) = Err err /\
      checkIsExclude f (exclude p) = false
  | FDone => True
  end.

(** A task that waits for [generateError] got there by a failed parse of
    the content of its file. *)
Definition task_sound (p : CheckSyntaxPlugin) (t : task) : Prop :=
  match t with
  | TBuild f code err =>
      readFile f = Ok code /\ parse code (ecmaVersion p) = Err err
  | TScripts f fs =>
      exists htmlScripts,
        generateHtmlScripts f = Ok htmlScripts /\
        Forall (fragment_sound p f htmlScripts) fs
  | _ => True
  end.

Definition world_sound (w : world) : Prop :=
  world_ok w /\
  Forall (task_sound (plugin w)) (pool w) /\
  Forall (task_sound (plugin w)) (stale w).

(** Opening [f] throws [e]. *)
Definition failed_read (f : string) (e : Exn) : Prop :=
  (JS_REGEX f = true /\ readFile f = Err e) \/
  (HTML_REGEX f = true /\ generateHtmlScripts f = Err e).

(** [t] is a state of the check of [f]. *)
Definition task_of (f : string) (t : task) : Prop :=
  match t with
  | THtml g => g = f /\ HTML_REGEX f = true
  | TRead g => g = f /\ JS_REGEX f = true
  | TScripts g _ | TBuild g _ _ => g = f
  | TDone => True
  | TRejected e => failed_read f e
  end.

(** The checks of the run are those of [fs], one each and in order, and a
    hook that rejected short of a report carries the error of a failed read
    of one of them. *)
Definition run_of (fs : list string) (w : world) : Prop :=
  Forall2 task_of fs (pool w) /\
  match hook w with
  | Rejected e => exists f, In f fs /\ failed_read f e
  | _ => True
  end.

(** The check of the document [f] waits for its extraction or has
    rejected. *)
Definition page_stuck (f : string) (t : task) : Prop :=
  match t with
  | THtml g => g = f
  | TRejected _ => True
  | _ => False
  end.

End Plugin.

(** ** A concrete host, for running the definitions

    A directory [dist] with two scripts and one document.  The optional
    chaining operator is rejected below ES2020.  An exclusion rule is a
    list of paths.  The reporter throws when it is given errors. *)
Module Demo.

Definition path_listed (f : string) (rule : option (list string)) : bool :=
  match rule with
  | None => false
  | Some paths => existsb (String.eqb f) paths
  end.

#[export] Instance host : Host := {|
  Exn := string;
  Source := unit;
  EcmaVersion := nat;
  AcornParseError := string;
  ECMASyntaxError := string * string;
  CheckSyntaxExclude := list string;
  resolve := fun out n => String.append out (String.append "/" n);
  checkIsExclude := path_listed;
  generateHtmlScripts := fun f =>
    if String.eqb f "dist/index.html" then Ok ["a?.b"; "var x"]%string
    else Err "ENOENT"%string;
  readFile := fun f =>
    if String.eqb f "dist/a.js" then Ok "a?.b"%string
    else if String.eqb f "dist/b.js" then Ok "var x"%string
    else Err "ENOENT"%string;
  parse := fun code v =>
    if String.eqb code "a?.b" && Nat.ltb v 2020
    then Err "Unexpected token"%string else Ok tt;
  generateError := fun err code f rule root =>
    if path_listed f rule then None else Some (f, err);
  printErrors := fun errs v =>
    match errs with
    | [] => Ok tt
    | _ :: _ => Err "incompatible syntax"%string
    end;
|}.

Definition options (v : option nat) (ex exo : option (list string))
  : CheckSyntaxOptions :=
  {| opt_targets := ["chrome 53"%string];
     opt_exclude := ex;
     opt_excludeOutput := exo;
     opt_rootPath := "/repo"%string;
     opt_ecmaVersion := v |}.

(** The instance [new CheckSyntaxPlugin] builds from [options (Some v)]. *)
Definition instance (v : nat) (ex exo : option (list string))
  : CheckSyntaxPlugin :=
  {| errors := [];
     ecmaVersion := v;
     targets := ["chrome 53"%string];
     rootPath := "/repo"%string;
     exclude := ex;
     excludeOutput := exo |}.

Definition asset (n : string) (with_source : bool) : Asset :=
  {| name := n; source := if with_source then Some tt else None |}.

Definition emitted (names : list string) : Compilation :=
  {| outputOptions_path := None;
     getAssets := map (fun n => asset n true) names |}.

(** ES2015 targets, no exclusion rule. *)
Definition plain : CheckSyntaxPlugin := instance 2015 None None.

(** One script that uses optional chaining. *)
Definition one_script : Compilation := emitted ["a.js?v=1"%string].

(** Resume the only check twice (read and parse, then the built error),
    then the hook. *)
Definition to_report : list action := [AResume 0 0; AResume 0 0; AReport].

(** A script that is not on disk, next to one that is. *)
Definition with_missing : Compilation :=
  emitted ["missing.js"; "a.js"]%string.

(** A script and a document, both matched by [exclude]. *)
Definition excluding : CheckSyntaxPlugin :=
  instance 2015 (Some ["dist/a.js"; "dist/index.html"]%string) None.

Definition script_and_page : Compilation :=
  emitted ["a.js"; "index.html"]%string.

(** What the file system throws for a missing file. *)
Definition enoent : @Exn host := "ENOENT"%string.

(** What the reporter throws when it is given errors. *)
Definition incompatible : @Exn host := "incompatible syntax"%string.

(** A resolver that knows no query. *)
Definition throwing_resolver : list string -> result unit (@EcmaVersion host) :=
  fun _ => Err tt.

Definition unexpected (f : string) : @ECMASyntaxError host :=
  (f, "Unexpected token"%string).

(** Two builds of [one_script] with one instance, each run to its report. *)
Definition two_builds : list action :=
  (AStart one_script :: to_report) ++ (AStart one_script :: to_report).

Definition two_builds_trace : list event :=
  [EvRead "dist/a.js"; EvParse "dist/a.js" "a?.b" 2015;
   EvPush "dist/a.js" (unexpected "dist/a.js");
   EvReport [unexpected "dist/a.js"] 2015;
   EvRead "dist/a.js"; EvParse "dist/a.js" "a?.b" 2015;
   EvPush "dist/a.js" (unexpected "dist/a.js");
   EvReport [unexpected "dist/a.js"; unexpected "dist/a.js"] 2015]%string.

(** The build of [with_missing] until both checks have settled. *)
Definition until_settled : list action :=
  [AResume 0 0; AResume 1 0; AResume 1 0].

Definition with_missing_trace : list event :=
  [EvRead "dist/missing.js"; EvRead "dist/a.js";
   EvParse "dist/a.js" "a?.b" 2015;
   EvPush "dist/a.js" (unexpected "dist/a.js")]%string.

(** The build of [script_and_page], run to its report. *)
Definition page_to_report : list action :=
  [AResume 0 0; AResume 1 0; AResume 1 0; AResume 0 0; AResume 1 0; AReport].

(** The same build with [excluding]: the page has no fragment to resume. *)
Definition excluding_to_report : list action :=
  [AResume 0 0; AResume 1 0; AResume 0 0; AResume 1 0; AReport].

Definition excluding_trace : list event :=
  [EvRead "dist/a.js"; EvExtract "dist/index.html";
   EvParse "dist/a.js" "a?.b" 2015; EvReport [] 2015]%string.


(** One script emitted under two queries. *)
Definition twice : Compilation := emitted ["a.js?v=1"; "a.js?v=2"]%string.

(** A document that is not on disk, and an instance whose [exclude]
    matches it. *)
Definition gone_page : Compilation := emitted ["gone.html"%string].

Definition excluding_gone : CheckSyntaxPlugin :=
  instance 2015 (Some ["dist/gone.html"%string]) None.

(** Resume the only check once. *)
Definition resume_once : list action := [AResume 0 0].

(** A build that emits a style sheet only. *)
Definition styles_only : Compilation := emitted ["style.css"%string].

End Demo.

(** ** A host that resolves paths as [node:path] does

    The working directory is [/repo]; scripts exist in [/srv/out] and in
    [/etc].  The rest is as in [Demo]. *)
Module Node.

Definition cwd : list string := ["repo"%string].

#[export] Instance host : Host := {|
  Exn := string;
  Source := unit;
  EcmaVersion := nat;
  AcornParseError := string;
  ECMASyntaxError := string * string;
  CheckSyntaxExclude := list string;
  resolve := posix_resolve cwd;
  checkIsExclude := Demo.path_listed;
  generateHtmlScripts := fun f => Err "ENOENT"%string;
  readFile := fun f =>
    if String.eqb f "/srv/out/a.js" || String.eqb f "/srv/out/js/b.js"
       || String.eqb f "/etc/x.js"
    then Ok "a?.b"%string
    else Err "ENOENT"%string;
  parse := @parse Demo.host;
  generateError := @generateError Demo.host;
  printErrors := @printErrors Demo.host;
|}.

Definition instance (exo : option (list string)) : CheckSyntaxPlugin :=
  {| errors := [];
     ecmaVersion := 2015;
     targets := ["chrome 53"%string];
     rootPath := "/repo"%string;
     exclude := None;
     excludeOutput := exo |}.

Definition asset (n : string) : Asset := {| name := n; source := Some tt |}.

Definition plain : CheckSyntaxPlugin := instance None.

(** An instance whose [excludeOutput] lists one script of the build. *)
Definition guarded : CheckSyntaxPlugin :=
  instance (Some ["/srv/out/a.js"%string]).

(** A build into [/srv/out] that emits two scripts. *)
Definition built : Compilation :=
  {| outputOptions_path := Some "/srv/out"%string;
     getAssets := [asset "a.js"; asset "js/b.js?v=1"] |}.

(** A build into the default directory that emits an asset under an
    absolute name. *)
Definition stray : Compilation :=
  {| outputOptions_path := None; getAssets := [asset "/etc/x.js"] |}.

(** One script, checked and reported. *)
Definition to_report : list action := [AResume 0 0; AResume 0 0; AReport].

End Node.

(** * Properties *)

(** ** The file-type patterns *)

Lemma append_cons (c : ascii) (pre s : string) :
  String.append (String c pre) s = String c (String.append pre s).
Proof. reflexivity. Qed.

Lemma append_empty (s : string) : String.append EmptyString s = s.
Proof. reflexivity. Qed.

Lemma ends_with_refl (s : string) : ends_with s s = true.
Proof. destruct s; cbn [ends_with]; by rewrite String.eqb_refl. Qed.

Lemma ends_with_spec (suf s : string) :
  ends_with suf s = true <-> exists pre, s = String.append pre suf.
Proof.
  split.
  - induction s as [|c s IH]; cbn [ends_with]; intros Hs.
    + rewrite orb_false_r in Hs. apply String.eqb_eq in Hs.
      exists EmptyString. by subst.
    + apply orb_true_iff in Hs as [Hs|Hs].
      * apply String.eqb_eq in Hs. exists EmptyString. by subst.
      * destruct (IH Hs) as [pre ->]. by exists (String c pre).
  - intros [pre ->]. induction pre as [|c pre IH].
    + rewrite append_empty. apply ends_with_refl.
    + rewrite append_cons. cbn [ends_with]. rewrite IH. apply orb_true_r.
Qed.

Lemma ends_with_length (suf s : string) :
  ends_with suf s = true -> String.length suf <= String.length s.
Proof.
  intros [pre ->]%ends_with_spec.
  induction pre as [|c pre IH]; [by rewrite append_empty|].
  rewrite append_cons. cbn [String.length]. lia.
Qed.

Lemma ends_with_cons_long (suf : string) (c : ascii) (s : string) :
  String.length suf <= String.length s ->
  ends_with suf (String c s) = ends_with suf s.
Proof.
  intros Hlen. cbn [ends_with].
  destruct (String.eqb_spec (String c s) suf) as [<-|_]; [|done].
  simpl in Hlen. lia.
Qed.

(** No path matches both patterns. *)
Lemma html_not_js (f : string) : HTML_REGEX f = true -> JS_REGEX f = false.
Proof.
  unfold HTML_REGEX, JS_REGEX.
  induction f as [|c f IH]; [done|].
  intros Hh. cbn [ends_with] in Hh. apply orb_true_iff in Hh as [Hh|Hh].
  - apply String.eqb_eq in Hh. by rewrite Hh.
  - pose proof (ends_with_length _ _ Hh) as Hlen. simpl in Hlen.
    rewrite !ends_with_cons_long by (simpl; lia). by apply IH.
Qed.

Lemma patterns_reject_empty :
  HTML_REGEX EmptyString || JS_REGEX EmptyString = false.
Proof. reflexivity. Qed.

(** ** The query suffix *)

Lemma strip_query_prefix (name : string) :
  exists rest,
    name = String.append (strip_query name) rest /\
    (rest = EmptyString \/ exists r, rest = String "?"%char r).
Proof.
  induction name as [|c name (rest & Hn & Hr)]; cbn [strip_query].
  - exists EmptyString. auto.
  - destruct (Ascii.eqb_spec c "?"%char) as [->|Hc].
    + exists (String "?"%char name). eauto.
    + exists rest. rewrite append_cons, <- Hn. done.
Qed.

Lemma strip_query_clean (name : string) :
  ~ In "?"%char (String.list_ascii_of_string (strip_query name)).
Proof.
  induction name as [|c name IH]; simpl; [tauto|].
  destruct (Ascii.eqb_spec c "?"%char) as [->|Hc]; simpl; [tauto|].
  intros [Heq|Hin]; [congruence|tauto].
Qed.

(** ** Path resolution *)

(** Names that never climb are followed one after the other. *)
Lemma walk_plain (dir segs : list string) :
  ~ In ".."%string segs -> walk dir segs = dir ++ List.filter is_name segs.
Proof.
  revert dir. induction segs as [|seg segs IH]; intros dir Hup.
  - cbn. by rewrite app_nil_r.
  - cbn [walk fold_left List.filter]. fold (walk (enter dir seg) segs).
    rewrite IH by (intros Hin; apply Hup; by right).
    unfold enter. destruct (String.eqb seg "..") eqn:Hs.
    + apply String.eqb_eq in Hs. destruct Hup. by left.
    + destruct (is_name seg); [|done]. by rewrite <- app_assoc.
Qed.

Section Properties.
Context `{H : Host}.

(** ** Collecting *)

Lemma asset_file_spec res excluded out (a : Asset) (f : string) :
  HTML_REGEX f || JS_REGEX f = true ->
  asset_file res excluded out a = f <->
  f = res out (strip_query (name a)) /\ excluded f = false.
Proof.
  intros Hty. unfold asset_file.
  destruct (excluded (res out (strip_query (name a)))) eqn:Hex; simpl.
  - split.
    + intros <-. by rewrite patterns_reject_empty in Hty.
    + intros [-> Hf]. congruence.
  - split.
    + intros <-. done.
    + by intros [-> _].
Qed.

Lemma in_collect res excluded out (assets : list Asset) (f : string) :
  In f (collect res excluded out assets) <->
  exists a, In a assets /\ has_source a = true /\
    f = res out (strip_query (name a)) /\ excluded f = false /\
    HTML_REGEX f || JS_REGEX f = true.
Proof.
  unfold collect. rewrite filter_In, in_map_iff. split.
  - intros [(a & Ha & [Hin Hsrc]%filter_In) Hty].
    apply asset_file_spec in Ha as [-> Hex]; [|done]. eauto 7.
  - intros (a & Hin & Hsrc & Hf & Hex & Hty). split; [|done].
    exists a. split; [by apply asset_file_spec|by apply filter_In].
Qed.

(** ** One resumption of a task *)

Lemma same_config_refl p : same_config p p.
Proof. by repeat split. Qed.

Lemma same_config_trans p1 p2 p3 :
  same_config p1 p2 -> same_config p2 p3 -> same_config p1 p3.
Proof.
  unfold same_config. intros (?&?&?&?&?) (?&?&?&?&?).
  repeat split; congruence.
Qed.

Lemma pushed_app evs1 evs2 : pushed (evs1 ++ evs2) = pushed evs1 ++ pushed evs2.
Proof. unfold pushed. by rewrite map_app, concat_app. Qed.

Lemma tryParse_resume_spec p f code err p' evs :
  tryParse_resume p f code err = (p', evs) ->
  p' = tryParse_catch p f code err /\
  same_config p p' /\
  pushed evs
  = option_list (generateError err code f (exclude p) (rootPath p)) /\
  errors p' = errors p ++ pushed evs /\
  (forall ev, In ev evs -> event_file ev = Some f /\ event_version ev = None).
Proof.
  unfold tryParse_resume, tryParse_catch.
  destruct (generateError _ _ _ _ _) as [d|]; intros [= <- <-]; simpl.
  - split_and!; try done. by intros ? [<-|[]].
  - rewrite app_nil_r. split_and!; try done.
Qed.

Lemma tryParse_enter_spec p f code fr evs :
  tryParse_enter p f code = (fr, evs) ->
  evs = [EvParse f code (ecmaVersion p)] /\
  fragment_pending p f fr = parse_errors p f code.
Proof.
  unfold tryParse_enter, parse_errors.
  destruct (tryParse_try p code); by intros [= <- <-].
Qed.

Lemma fragment_start_events p f script ev :
  In ev (snd (fragment_start p f script)) ->
  ev = EvParse f script (ecmaVersion p) /\
  checkIsExclude f (exclude p) = false.
Proof.
  unfold fragment_start.
  destruct (checkIsExclude f (exclude p)); simpl; [done|].
  destruct (tryParse_enter p f script) as [fr evs] eqn:He.
  apply tryParse_enter_spec in He as [-> _]. simpl. by intros [<-|[]].
Qed.

Lemma fragments_start_events p f htmlScripts ev :
  In ev (concat (map snd (map (fragment_start p f) htmlScripts))) ->
  checkIsExclude f (exclude p) = false /\
  exists script, In script htmlScripts /\ ev = EvParse f script (ecmaVersion p).
Proof.
  rewrite in_concat. intros (evs & Hevs & Hev).
  apply in_map_iff in Hevs as ([fr evs'] & <- & Hin).
  apply in_map_iff in Hin as (script & Hs & Hin).
  replace evs' with (snd (fragment_start p f script)) in Hev by by rewrite Hs.
  apply fragment_start_events in Hev as [-> ?]. eauto.
Qed.

Lemma fragments_start_pending p f htmlScripts :
  concat (map (fragment_pending p f)
            (map fst (map (fragment_start p f) htmlScripts))) =
  if checkIsExclude f (exclude p) then []
  else concat (map (parse_errors p f) htmlScripts).
Proof.
  unfold fragment_start.
  induction htmlScripts as [|script rest IH]; simpl.
  - by destruct (checkIsExclude _ _).
  - rewrite IH. destruct (checkIsExclude f (exclude p)); simpl; [done|].
    destruct (tryParse_enter p f script) as [fr evs] eqn:He.
    apply tryParse_enter_spec in He as [_ He]. simpl. by rewrite He.
Qed.

Lemma fragments_done_pending p f fs :
  forallb fragment_done fs = true ->
  concat (map (fragment_pending p f) fs) = [].
Proof.
  induction fs as [|[] fs IH]; simpl; [done|done|]. apply IH.
Qed.

Lemma fragment_resume_pending p f fs j code err :
  fs !! j = Some (FBuild code err) ->
  concat (map (fragment_pending p f) fs) ≡ₚ
  option_list (generateError err code f (exclude p) (rootPath p)) ++
  concat (map (fragment_pending p f) (<[j := FDone]> fs)).
Proof.
  intros Hj.
  rewrite insert_take_drop by by eapply lookup_lt_Some.
  rewrite <- (take_drop_middle fs j _ Hj) at 1.
  rewrite !map_app, !concat_app. simpl.
  apply Permutation_app_swap_app.
Qed.

Lemma pushed_fragments_start p f htmlScripts :
  pushed (concat (map snd (map (fragment_start p f) htmlScripts))) = [].
Proof.
  unfold pushed. apply concat_nil_Forall, Forall_forall.
  intros ds (ev & <- & Hev)%list_elem_of_In%in_map_iff.
  by apply fragments_start_events in Hev as (_ & script & _ & ->).
Qed.

Lemma check_js_spec f t evs :
  check_js f = (t, evs) ->
  pushed evs = [] /\
  (forall p, pending p t = js_pending p f) /\
  (forall g, task_file t = Some g -> g = f /\ JS_REGEX f = true) /\
  (forall ev, In ev evs -> ev = EvRead f /\ JS_REGEX f = true).
Proof.
  unfold check_js, js_pending.
  destruct (JS_REGEX f); intros [= <- <-]; simpl; split_and!; try done.
  - by intros g [= <-].
  - by intros ev [<-|[]].
Qed.

(** Breaks a successful [task_step] into its cases. *)
Ltac task_step_cases Hs :=
  unfold task_step in Hs;
  repeat match type of Hs with
    | match ?x with _ => _ end = _ =>
        let E := fresh "E" in destruct x eqn:E
    | (let '(_, _) := ?x in _) = _ =>
        let E := fresh "E" in destruct x eqn:E
    | (if ?x then _ else _) = _ =>
        let E := fresh "E" in destruct x eqn:E
    end;
  simplify_eq.

Lemma task_step_plugin p j t t' p' evs :
  task_step p j t = Some (t', p', evs) ->
  same_config p p' /\ errors p' = errors p ++ pushed evs.
Proof.
  intros Hs. task_step_cases Hs.
  all: repeat match goal with
    | E : tryParse_resume _ _ _ _ = _ |- _ =>
        apply tryParse_resume_spec in E as (_ & ? & _ & ? & _)
    | E : tryParse_enter _ _ _ = _ |- _ =>
        apply tryParse_enter_spec in E as [-> _]
    | E : check_js _ = _ |- _ =>
        apply check_js_spec in E as (-> & _)
    end; try done.
  all: rewrite ?pushed_fragments_start; simpl; rewrite ?app_nil_r.
  all: split; [apply same_config_refl|done].
Qed.

(** Replaces the equations of the helper calls by what they say. *)
Ltac use_specs :=
  repeat match goal with
    | E : tryParse_resume _ _ _ _ = _ |- _ =>
        apply tryParse_resume_spec in E as (? & ? & ? & ? & ?)
    | E : tryParse_enter _ _ _ = _ |- _ =>
        apply tryParse_enter_spec in E as [? ?]
    | E : check_js _ = _ |- _ =>
        apply check_js_spec in E as (? & ? & ? & ?)
    | E : generateHtmlScripts _ = _ |- _ => rewrite ?E; clear E
    | E : readFile _ = _ |- _ => rewrite ?E; clear E
    end;
  subst.

Lemma task_step_pending p j t t' p' evs :
  task_step p j t = Some (t', p', evs) ->
  pending p t ≡ₚ pushed evs ++ pending p t'.
Proof.
  intros Hs. task_step_cases Hs; simpl; unfold read_pending; use_specs.
  - (* the document was read *)
    by rewrite pushed_fragments_start, fragments_start_pending.
  - (* the document could not be read *)
    done.
  - (* the inner Promise.all resolved *)
    match goal with Hp : pushed _ = _, Hq : forall _, pending _ _ = _ |- _ =>
      rewrite Hp, Hq end.
    by rewrite fragments_done_pending.
  - (* one fragment resumed *)
    match goal with Hp : pushed _ = _ |- _ => rewrite Hp end.
    erewrite fragment_resume_pending by done. by rewrite app_assoc.
  - (* the script was read and does not parse *)
    match goal with Hp : fragment_pending _ _ _ = _ |- _ => by rewrite <- Hp end.
  - (* the script was read and parses *)
    match goal with Hp : fragment_pending _ _ _ = _ |- _ => by rewrite <- Hp end.
  - (* the script could not be read *)
    done.
  - (* tryParse resumed *)
    match goal with Hp : pushed _ = _ |- _ => by rewrite Hp, app_nil_r end.
Qed.

Lemma task_step_events p j t t' p' evs :
  task_step p j t = Some (t', p', evs) ->
  exists f, task_file t = Some f /\
    forall ev, In ev evs ->
      event_file ev = Some f /\
      forall v, event_version ev = Some v -> v = ecmaVersion p.
Proof.
  intros Hs. task_step_cases Hs; simpl; eexists; (split; [done|]); use_specs.
  all: try done.
  all: try (intros ev [<-|[]]; split; [done|]; by intros v [= <-]).
  - intros ev (_ & script & _ & ->)%fragments_start_events. split; [done|].
    by intros v [= <-].
  - intros ev Hev. by match goal with Hx : forall _, In _ _ -> _ /\ _ |- _ =>
      apply Hx in Hev as [-> _] end.
  - intros ev Hev. match goal with Hx : forall _, In _ _ -> _ /\ _ |- _ =>
      apply Hx in Hev as [? Hv] end.
    split; [done|]. intros v. by rewrite Hv.
  - intros ev Hev. match goal with Hx : forall _, In _ _ -> _ /\ _ |- _ =>
      apply Hx in Hev as [? Hv] end.
    split; [done|]. intros v. by rewrite Hv.
Qed.

(** ** One step of the machine *)

Lemma check_start_spec f t evs :
  check_start f = (t, evs) ->
  pushed evs = [] /\
  (forall ev, In ev evs -> event_file ev = Some f /\ event_version ev = None) /\
  (forall p, admitted p f -> task_ok p t).
Proof.
  unfold check_start, check_js.
  destruct (HTML_REGEX f) eqn:Hh; [|destruct (JS_REGEX f) eqn:Hj];
    intros [= <- <-]; simpl; split_and!; try done.
  all: by intros ev [<-|[]].
Qed.

Lemma files_started_spec (fs : list string) :
  let started := map check_start fs in
  pushed (concat (map snd started)) = [] /\
  (forall ev, In ev (concat (map snd started)) ->
     exists f, In f fs /\ event_file ev = Some f /\ event_version ev = None) /\
  (forall p, Forall (admitted p) fs -> Forall (task_ok p) (map fst started)).
Proof.
  induction fs as [|f fs (IH1 & IH2 & IH3)]; simpl.
  - split_and!; try done.
  - destruct (check_start f) as [t evs] eqn:Hf.
    apply check_start_spec in Hf as (Hp & Hev & Hok). simpl.
    rewrite pushed_app, Hp, IH1. split_and!; [done| |].
    + intros ev [Hin|Hin]%in_app_or.
      * exists f. split; [by left|by apply Hev].
      * destruct (IH2 ev Hin) as (g & ? & ?). exists g. split; [by right|done].
    + intros p [Hf Hfs]%Forall_cons. constructor; auto.
Qed.

Lemma files_admitted p c : Forall (admitted p) (files p c).
Proof.
  apply Forall_forall. intros f Hf%list_elem_of_In.
  apply in_collect in Hf as (a & _ & _ & _ & Hex & Hty). by split.
Qed.

Lemma task_ok_config p p' t : same_config p p' -> task_ok p t -> task_ok p' t.
Proof.
  intros (_ & _ & _ & _ & Heo). unfold task_ok, admitted.
  by destruct t; rewrite ?Heo.
Qed.

Lemma task_step_ok p j t t' p' evs :
  task_step p j t = Some (t', p', evs) -> task_ok p t -> task_ok p t'.
Proof.
  intros Hs. task_step_cases Hs; simpl; try done. use_specs.
  intros [Hadm Hh]. destruct t'; simpl; try done.
  all: match goal with Hx : forall _, task_file _ = _ -> _ |- _ =>
    by destruct (Hx _ eq_refl) as [-> ?] end.
Qed.

Lemma step_plugin a w w' evs :
  step a w = Some (w', evs) ->
  same_config (plugin w) (plugin w') /\
  errors (plugin w') = errors (plugin w) ++ pushed evs.
Proof.
  destruct a as [c|i j|i j|]; simpl.
  - destruct (is_running (hook w)); [done|]. intros [= <- <-]. simpl.
    destruct (files_started_spec (files (plugin w) c)) as (-> & _).
    by rewrite app_nil_r.
  - destruct (pool w !! i) as [t|]; [|done].
    destruct (task_step (plugin w) j t) as [[[t' p'] evs']|] eqn:Hs; [|done].
    intros [= <- <-]. by apply task_step_plugin in Hs.
  - destruct (stale w !! i) as [t|]; [|done].
    destruct (task_step (plugin w) j t) as [[[t' p'] evs']|] eqn:Hs; [|done].
    intros [= <- <-]. by apply task_step_plugin in Hs.
  - destruct (is_running (hook w) && forallb is_done (pool w)); [|done].
    intros [= <- <-]. simpl. by rewrite app_nil_r.
Qed.

Lemma step_ok a w w' evs :
  step a w = Some (w', evs) -> world_ok w -> world_ok w'.
Proof.
  intros Hs [Hpool Hstale].
  pose proof (step_plugin _ _ _ _ Hs) as [Hcfg _].
  destruct a as [c|i j|i j|]; simpl in Hs.
  - destruct (is_running (hook w)); [done|]. injection Hs as <- <-.
    split; simpl.
    + apply files_started_spec, files_admitted.
    + by apply Forall_app.
  - destruct (pool w !! i) as [t|] eqn:Hi; [|done].
    destruct (task_step (plugin w) j t) as [[[t' p'] evs']|] eqn:Ht; [|done].
    injection Hs as <- <-. simpl in *.
    assert (task_ok (plugin w) t) as Ht_ok.
    { eapply Forall_lookup_1 in Hi; [exact Hi|]. first [exact Hpool|exact Hstale]. }
    split; simpl.
    + apply Forall_insert.
      * eapply Forall_impl; [done|]. intros ?. by apply task_ok_config.
      * eapply task_ok_config; [done|]. by eapply task_step_ok.
    + eapply Forall_impl; [done|]. intros ?. by apply task_ok_config.
  - destruct (stale w !! i) as [t|] eqn:Hi; [|done].
    destruct (task_step (plugin w) j t) as [[[t' p'] evs']|] eqn:Ht; [|done].
    injection Hs as <- <-. simpl in *.
    assert (task_ok (plugin w) t) as Ht_ok.
    { eapply Forall_lookup_1 in Hi; [exact Hi|]. first [exact Hpool|exact Hstale]. }
    split; simpl.
    + eapply Forall_impl; [done|]. intros ?. by apply task_ok_config.
    + apply Forall_insert.
      * eapply Forall_impl; [done|]. intros ?. by apply task_ok_config.
      * eapply task_ok_config; [done|]. by eapply task_step_ok.
  - destruct (is_running (hook w) && forallb is_done (pool w)); [|done].
    by injection Hs as <- <-.
Qed.

Lemma task_ok_file p t f : task_ok p t -> task_file t = Some f -> admitted p f.
Proof. destruct t; simpl; try done; by intros [? _] [= <-]. Qed.

Lemma task_step_parse p j t t' p' evs f code v :
  task_step p j t = Some (t', p', evs) ->
  task_ok p t ->
  In (EvParse f code v) evs ->
  (HTML_REGEX f = true /\ checkIsExclude f (exclude p) = false) \/
  JS_REGEX f = true.
Proof.
  intros Hs. task_step_cases Hs; simpl; use_specs; try done.
  all: intros [Hadm Hty] Hev.
  all: try (match goal with Hx : forall _, In _ _ -> _ /\ _ |- _ =>
              by destruct (Hx _ Hev) as [? ?] end).
  all: try (destruct Hev as [[= <- <- <-]|[]]; by right).
  apply fragments_start_events in Hev as (? & script & _ & [= -> -> ->]).
  by left.
Qed.

(** What the events of one step say. *)
Lemma step_events a w w' evs ev :
  step a w = Some (w', evs) ->
  world_ok w ->
  In ev evs ->
  (forall f, event_file ev = Some f -> admitted (plugin w) f) /\
  (forall v, event_version ev = Some v -> v = ecmaVersion (plugin w)) /\
  (forall f code v, ev = EvParse f code v ->
     (HTML_REGEX f = true /\ checkIsExclude f (exclude (plugin w)) = false)
     \/ JS_REGEX f = true).
Proof.
  intros Hs [Hpool Hstale] Hev.
  destruct a as [c|i j|i j|]; simpl in Hs.
  - destruct (is_running (hook w)); [done|]. injection Hs as <- <-.
    apply files_started_spec in Hev as (g & Hg & Hf & Hv).
    split_and!.
    + intros f. rewrite Hf. intros [= <-].
      pose proof (files_admitted (plugin w) c) as Hall.
      rewrite Forall_forall in Hall. by apply Hall, list_elem_of_In.
    + intros v. by rewrite Hv.
    + intros f code v ->. done.
  - destruct (pool w !! i) as [t|] eqn:Hi; [|done].
    destruct (task_step (plugin w) j t) as [[[t' p'] evs']|] eqn:Ht; [|done].
    injection Hs as <- <-.
    eapply Forall_lookup_1 in Hi; [|exact Hpool].
    destruct (task_step_events _ _ _ _ _ _ Ht) as (g & Hg & Hall).
    destruct (Hall _ Hev) as [Hf Hv]. split_and!; [|done|].
    + intros f. rewrite Hf. intros [= <-]. by eapply task_ok_file.
    + intros f code v ->. by eapply task_step_parse.
  - destruct (stale w !! i) as [t|] eqn:Hi; [|done].
    destruct (task_step (plugin w) j t) as [[[t' p'] evs']|] eqn:Ht; [|done].
    injection Hs as <- <-.
    eapply Forall_lookup_1 in Hi; [|exact Hstale].
    destruct (task_step_events _ _ _ _ _ _ Ht) as (g & Hg & Hall).
    destruct (Hall _ Hev) as [Hf Hv]. split_and!; [|done|].
    + intros f. rewrite Hf. intros [= <-]. by eapply task_ok_file.
    + intros f code v ->. by eapply task_step_parse.
  - destruct (is_running (hook w) && forallb is_done (pool w)); [|done].
    injection Hs as <- <-. destruct Hev as [<-|[]]. split_and!; try done.
    by intros v [= <-].
Qed.

(** ** Schedules *)

(** An invariant of the enabled steps holds along every schedule, and so
    does what it implies for the events. *)
Lemma exec_invariant (allowed : action -> bool) (I : world -> Prop)
    (Q : event -> Prop) :
  (forall a w w' evs, allowed a = true -> I w -> step a w = Some (w', evs) ->
     I w' /\ forall ev, In ev evs -> Q ev) ->
  forall acts w w' evs,
    forallb allowed acts = true -> I w -> exec acts w = Some (w', evs) ->
    I w' /\ forall ev, In ev evs -> Q ev.
Proof.
  intros Hstep. induction acts as [|a acts IH]; simpl; intros w w' evs Hall Hw He.
  - by injection He as <- <-.
  - apply andb_true_iff in Hall as [Ha Hall].
    destruct (step a w) as [[w1 evs1]|] eqn:Hs; [|done].
    destruct (exec acts w1) as [[w2 evs2]|] eqn:Hx; [|done].
    injection He as <- <-.
    destruct (Hstep _ _ _ _ Ha Hw Hs) as [Hw1 Hq1].
    destruct (IH _ _ _ Hall Hw1 Hx) as [Hw2 Hq2].
    split; [done|]. intros ev [?|?]%in_app_or; auto.
Qed.

Lemma forallb_any (acts : list action) : forallb (fun _ => true) acts = true.
Proof. by induction acts. Qed.

Lemma exec_plugin acts w w' evs :
  exec acts w = Some (w', evs) ->
  same_config (plugin w) (plugin w') /\
  errors (plugin w') = errors (plugin w) ++ pushed evs.
Proof.
  revert w w' evs. induction acts as [|a acts IH]; simpl; intros w w' evs He.
  - injection He as <- <-. by rewrite app_nil_r.
  - destruct (step a w) as [[w1 evs1]|] eqn:Hs; [|done].
    destruct (exec acts w1) as [[w2 evs2]|] eqn:Hx; [|done].
    injection He as <- <-.
    apply step_plugin in Hs as [Hc1 He1]. apply IH in Hx as [Hc2 He2].
    split; [by eapply same_config_trans|].
    by rewrite He2, He1, pushed_app, app_assoc.
Qed.

Lemma exec_app acts1 acts2 w :
  exec (acts1 ++ acts2) w =
  match exec acts1 w with
  | None => None
  | Some (w1, evs1) =>
      match exec acts2 w1 with
      | None => None
      | Some (w2, evs2) => Some (w2, evs1 ++ evs2)
      end
  end.
Proof.
  revert w. induction acts1 as [|a acts1 IH]; simpl; intros w.
  - by destruct (exec acts2 w) as [[w2 evs2]|].
  - destruct (step a w) as [[wa evsa]|]; [|done]. rewrite IH.
    destruct (exec acts1 wa) as [[w1 evs1]|]; [|done].
    destruct (exec acts2 w1) as [[w2 evs2]|]; [|done].
    by rewrite app_assoc.
Qed.

(** Only the resumption of the hook reports. *)
Lemma step_report a w w' evs errs v :
  step a w = Some (w', evs) ->
  In (EvReport errs v) evs ->
  a = AReport /\ evs = [EvReport errs v] /\
  errs = errors (plugin w) /\ v = ecmaVersion (plugin w) /\
  is_running (hook w) = true /\ forallb is_done (pool w) = true /\
  w' = {| plugin := plugin w; pool := pool w; stale := stale w;
          hook := report (plugin w) |}.
Proof.
  intros Hs Hev. destruct a as [c|i j|i j|]; simpl in Hs.
  - destruct (is_running (hook w)); [done|]. injection Hs as <- <-.
    by apply files_started_spec in Hev as (g & _ & ? & _).
  - destruct (pool w !! i) as [t|]; [|done].
    destruct (task_step (plugin w) j t) as [[[t' p'] evs']|] eqn:Ht; [|done].
    injection Hs as <- <-.
    destruct (task_step_events _ _ _ _ _ _ Ht) as (g & _ & Hall).
    by destruct (Hall _ Hev).
  - destruct (stale w !! i) as [t|]; [|done].
    destruct (task_step (plugin w) j t) as [[[t' p'] evs']|] eqn:Ht; [|done].
    injection Hs as <- <-.
    destruct (task_step_events _ _ _ _ _ _ Ht) as (g & _ & Hall).
    by destruct (Hall _ Hev).
  - destruct (is_running (hook w)) eqn:Hr; [|done].
    destruct (forallb is_done (pool w)) eqn:Hd; [|done].
    injection Hs as <- <-. by destruct Hev as [[= <- <-]|[]].
Qed.

(** The world in which a report of the trace was made. *)
Lemma exec_report acts w w' evs errs v :
  exec acts w = Some (w', evs) ->
  In (EvReport errs v) evs ->
  exists acts1 acts2 wa evs1,
    acts = acts1 ++ AReport :: acts2 /\
    exec acts1 w = Some (wa, evs1) /\
    errs = errors (plugin wa) /\ v = ecmaVersion (plugin wa) /\
    is_running (hook wa) = true /\ forallb is_done (pool wa) = true.
Proof.
  revert w evs. induction acts as [|a acts IH]; simpl; intros w evs He Hev.
  - by injection He as <- <-.
  - destruct (step a w) as [[w1 evs1]|] eqn:Hs; [|done].
    destruct (exec acts w1) as [[w2 evs2]|] eqn:Hx; [|done].
    injection He as <- <-. apply in_app_or in Hev as [Hev|Hev].
    + destruct (step_report _ _ _ _ _ _ Hs Hev)
        as (-> & _ & -> & -> & Hr & Hd & _).
      by exists [], acts, w, [].
    + destruct (IH _ _ Hx Hev) as (a1 & a2 & wa & ea & -> & He1 & Hrest).
      exists (a :: a1), a2, wa, (evs1 ++ ea). split; [done|].
      split; [|done]. simpl. by rewrite Hs, He1.
Qed.

(** Where a report sits in the trace, and what it shows. *)
Lemma exec_report_split acts w w' evs pre errs v post :
  exec acts w = Some (w', evs) ->
  evs = pre ++ EvReport errs v :: post ->
  errs = errors (plugin w) ++ pushed pre.
Proof.
  revert w evs pre. induction acts as [|a acts IH]; simpl;
    intros w evs pre He Hsplit.
  - injection He as <- <-. by destruct pre.
  - destruct (step a w) as [[w1 evs1]|] eqn:Hs; [|done].
    destruct (exec acts w1) as [[w2 evs2]|] eqn:Hx; [|done].
    injection He as <- <-.
    pose proof (step_plugin _ _ _ _ Hs) as [_ He1].
    apply app_eq_app in Hsplit as [l [[H1 H2]|[H1 H2]]].
    + destruct l as [|r l].
      * simpl in H2. rewrite app_nil_r in H1. subst evs1.
        rewrite (IH _ _ [] Hx (eq_sym H2)), He1. simpl.
        by rewrite app_nil_r.
      * injection H2 as <- ->.
        assert (In (EvReport errs v) evs1) as Hin
          by (rewrite H1; apply in_elt).
        destruct (step_report _ _ _ _ _ _ Hs Hin) as (_ & Hone & -> & _).
        rewrite Hone in H1. destruct pre as [|? [|? ?]]; try done.
        simpl. by rewrite app_nil_r.
    + subst pre. rewrite (IH _ _ l Hx H2), He1, pushed_app.
      by rewrite app_assoc.
Qed.

Lemma init_ok p : world_ok (init p).
Proof. split; constructor. Qed.

(** Along any schedule from a well-formed world, the world stays
    well-formed and every event is about a collected file and carries the
    instance's version. *)
Lemma exec_events acts w w' evs :
  world_ok w ->
  exec acts w = Some (w', evs) ->
  world_ok w' /\
  forall ev, In ev evs ->
    (forall f, event_file ev = Some f -> admitted (plugin w) f) /\
    (forall v, event_version ev = Some v -> v = ecmaVersion (plugin w)) /\
    (forall f code v, ev = EvParse f code v ->
       (HTML_REGEX f = true /\ checkIsExclude f (exclude (plugin w)) = false)
       \/ JS_REGEX f = true).
Proof.
  intros Hw He.
  pose (I := fun w1 => same_config (plugin w) (plugin w1) /\ world_ok w1).
  destruct (exec_invariant (fun _ => true) I
    (fun ev =>
       (forall f, event_file ev = Some f -> admitted (plugin w) f) /\
       (forall v, event_version ev = Some v -> v = ecmaVersion (plugin w)) /\
       (forall f code v, ev = EvParse f code v ->
          (HTML_REGEX f = true /\
           checkIsExclude f (exclude (plugin w)) = false)
          \/ JS_REGEX f = true))) with (acts := acts) (w := w) (w' := w')
    (evs := evs) as [[_ Hw'] Hq];
    [|apply forallb_any|split; [apply same_config_refl|done]|done|done].
  - intros a w1 w2 evs1 _ [Hc Hok] Hs. split.
    + split; [|by eapply step_ok].
      eapply same_config_trans; [done|]. by eapply step_plugin.
    + intros ev Hev.
      destruct (step_events _ _ _ _ _ Hs Hok Hev) as (Hf & Hv & Hp).
      destruct Hc as (Hc1 & _ & _ & Hc4 & Hc5).
      unfold admitted in *. rewrite Hc1, Hc4, Hc5 in *. done.
Qed.

(** ** The accounting of a run *)

Lemma pending_config p p' t : same_config p p' -> pending p' t = pending p t.
Proof.
  destruct p, p'. unfold same_config. simpl.
  intros (-> & -> & -> & -> & ->).
  unfold pending, js_pending, read_pending, parse_errors, fragment_pending,
    tryParse_try. simpl. done.
Qed.

Lemma owed_insert p ts i t t' extra :
  ts !! i = Some t ->
  pending p t ≡ₚ extra ++ pending p t' ->
  owed p ts ≡ₚ extra ++ owed p (<[i := t']> ts).
Proof.
  intros Hi Hp. unfold owed.
  rewrite insert_take_drop by by eapply lookup_lt_Some.
  rewrite <- (take_drop_middle ts i t Hi) at 1.
  rewrite !map_app, !concat_app. simpl. rewrite Hp.
  rewrite <- app_assoc. apply Permutation_app_swap_app.
Qed.

Lemma owed_done p ts : forallb is_done ts = true -> owed p ts = [].
Proof.
  unfold owed. induction ts as [|[] ts IH]; simpl; try done.
Qed.

Lemma owed_started p fs :
  owed p (map fst (map check_start fs)) = concat (map (check_errors p) fs).
Proof. unfold owed, check_errors. by rewrite !map_map. Qed.

Lemma run_inv_start w0 c w1 evs0 :
  step (AStart c) w0 = Some (w1, evs0) ->
  run_inv (plugin w0) (errors (plugin w0))
    (concat (map (check_errors (plugin w0)) (files (plugin w0) c)))
    (owed (plugin w0) (stale w1))
    (length (files (plugin w0) c)) w1 /\
  hook w1 = Running /\
  pool w1 = map fst (map check_start (files (plugin w0) c)).
Proof.
  simpl. destruct (is_running (hook w0)); [done|]. intros [= <- <-].
  split_and!; try done. split_and!; simpl.
  - apply same_config_refl.
  - by rewrite !length_map.
  - exists [], []. simpl. by rewrite app_nil_r, owed_started.
Qed.

Lemma run_inv_step p0 E0 P0 S0 n a w w' evs :
  in_run a = true ->
  run_inv p0 E0 P0 S0 n w ->
  step a w = Some (w', evs) ->
  run_inv p0 E0 P0 S0 n w'.
Proof.
  intros Ha (Hc & Hn & now & old & He & Hp & Hst) Hs.
  pose proof (step_plugin _ _ _ _ Hs) as [Hc' He'].
  assert (same_config p0 (plugin w')) as Hc0 by by eapply same_config_trans.
  split; [done|].
  destruct a as [c|i j|i j|]; [done| | |]; simpl in Hs.
  - destruct (pool w !! i) as [t|] eqn:Hi; [|done].
    destruct (task_step (plugin w) j t) as [[[t' p'] evs']|] eqn:Ht; [|done].
    injection Hs as <- <-. simpl in *.
    apply task_step_pending in Ht.
    rewrite !(pending_config p0 (plugin w)) in Ht by done.
    split; [by rewrite length_insert|].
    exists (now ++ pushed evs'), old. split_and!; [| |done].
    + rewrite He', He. rewrite <- !app_assoc.
      do 2 apply Permutation_app_head. apply Permutation_app_comm.
    + rewrite <- Hp, <- app_assoc. apply Permutation_app_head.
      symmetry. by eapply owed_insert.
  - destruct (stale w !! i) as [t|] eqn:Hi; [|done].
    destruct (task_step (plugin w) j t) as [[[t' p'] evs']|] eqn:Ht; [|done].
    injection Hs as <- <-. simpl in *.
    apply task_step_pending in Ht.
    rewrite !(pending_config p0 (plugin w)) in Ht by done.
    split; [done|].
    exists now, (old ++ pushed evs'). split_and!; [|done|].
    + by rewrite He', He, <- !app_assoc.
    + rewrite <- Hst, <- app_assoc. apply Permutation_app_head.
      symmetry. by eapply owed_insert.
  - destruct (is_running (hook w) && forallb is_done (pool w)); [|done].
    injection Hs as <- <-. simpl in *. split; [done|].
    exists now, old. by rewrite app_nil_r in He'.
Qed.

Lemma run_inv_exec p0 E0 P0 S0 n acts w w' evs :
  forallb in_run acts = true ->
  run_inv p0 E0 P0 S0 n w ->
  exec acts w = Some (w', evs) ->
  run_inv p0 E0 P0 S0 n w'.
Proof.
  intros Hall Hw He.
  destruct (exec_invariant in_run (run_inv p0 E0 P0 S0 n) (fun _ => True))
    with (acts := acts) (w := w) (w' := w') (evs := evs) as [Hw' _];
    try done.
  intros a w1 w2 evs1 Ha H1 Hs. split; [|done]. by eapply run_inv_step.
Qed.

Lemma is_done_spec t : is_done t = true <-> t = TDone.
Proof. by destruct t. Qed.

Lemma report_cases p :
  report p = Resolved \/ exists e, report p = Rejected e.
Proof. unfold report. destruct (printErrors _ _); eauto. Qed.

Lemma report_not_running p : is_running (report p) = false.
Proof. by destruct (report_cases p) as [->|[e ->]]. Qed.

(** Once the hook has reported, the current run is over: no action of the
    run changes its pool or its state. *)
Lemma reported_stable h ts acts w w' evs :
  is_running h = false ->
  forallb is_done ts = true ->
  forallb in_run acts = true ->
  hook w = h /\ pool w = ts ->
  exec acts w = Some (w', evs) ->
  hook w' = h /\ pool w' = ts.
Proof.
  intros Hrun Hts Hall Hw He.
  destruct (exec_invariant in_run
    (fun w1 => hook w1 = h /\ pool w1 = ts) (fun _ => True))
    with (acts := acts) (w := w) (w' := w') (evs := evs) as [Hw' _];
    try done.
  intros a w1 w2 evs1 Ha [Hh Hp] Hs. split; [|done].
  destruct a as [c|i j|i j|]; [done| | |]; simpl in Hs.
  - destruct (pool w1 !! i) as [t|] eqn:Hi; [|done].
    rewrite Hp in Hi. apply list_elem_of_lookup_2, list_elem_of_In in Hi.
    rewrite forallb_forall in Hts. apply Hts, is_done_spec in Hi as ->.
    done.
  - destruct (stale w1 !! i) as [t|]; [|done].
    destruct (task_step (plugin w1) j t) as [[[t' p'] evs']|]; [|done].
    by injection Hs as <- <-.
  - by rewrite Hh, Hrun in Hs.
Qed.

(** ** A run in which a read fails *)

Lemma check_start_js f :
  JS_REGEX f = true -> check_start f = (TRead f, [EvRead f]).
Proof.
  intros Hj. unfold check_start, check_js. rewrite Hj.
  destruct (HTML_REGEX f) eqn:Hh; [|done].
  apply html_not_js in Hh. congruence.
Qed.

Lemma check_start_not_rejected f e : fst (check_start f) <> TRejected e.
Proof.
  unfold check_start, check_js.
  by destruct (HTML_REGEX f), (JS_REGEX f).
Qed.

Lemma stuck_not_done f ts :
  Exists (stuck_on f) ts -> forallb is_done ts = false.
Proof.
  induction 1 as [t ts Ht|t ts _ IH]; simpl.
  - by destruct t.
  - rewrite IH. apply andb_false_r.
Qed.

Lemma stuck_step f e p j t t' p' evs :
  readFile f = Err e ->
  stuck_on f t ->
  task_step p j t = Some (t', p', evs) ->
  stuck_on f t'.
Proof.
  intros Hr Hst Hs. destruct t; simpl in Hst; try done. subst.
  simpl in Hs. rewrite Hr in Hs. by injection Hs as <- <- <-.
Qed.

Lemma failing_run_start w0 c w1 evs0 f :
  step (AStart c) w0 = Some (w1, evs0) ->
  In f (files (plugin w0) c) ->
  JS_REGEX f = true ->
  failing_run f w1.
Proof.
  simpl. destruct (is_running (hook w0)); [done|]. intros [= <- <-] Hf Hj.
  split; simpl.
  - apply Forall_forall. intros t Ht%list_elem_of_In e.
    rewrite map_map in Ht. apply in_map_iff in Ht as (g & <- & _).
    apply check_start_not_rejected.
  - apply Exists_exists. exists (TRead f). split; [|done].
    apply list_elem_of_In. rewrite map_map. apply in_map_iff.
    exists f. by rewrite check_start_js.
Qed.

Lemma failing_run_step f e a w w' evs :
  readFile f = Err e ->
  in_run a = true ->
  failing_run f w ->
  step a w = Some (w', evs) ->
  failing_run f w'.
Proof.
  intros Hr Ha [Hh Hx] Hs.
  destruct a as [c|i j|i j|]; [done| | |]; simpl in Hs.
  - destruct (pool w !! i) as [t|] eqn:Hi; [|done].
    destruct (task_step (plugin w) j t) as [[[t' p'] evs']|] eqn:Ht; [|done].
    injection Hs as <- <-. split; simpl.
    + destruct (hook w); simpl; try done.
      destruct t'; simpl; try done; apply Forall_insert; done.
    + apply Exists_exists in Hx as (s & [k Hk]%list_elem_of_lookup & Hs).
      apply Exists_exists. destruct (decide (i = k)) as [->|Hne].
      * exists t'. split.
        { apply list_elem_of_lookup. exists k.
          apply list_lookup_insert_eq. by eapply lookup_lt_Some. }
        rewrite Hi in Hk. injection Hk as ->. by eapply stuck_step.
      * exists s. split; [|done]. apply list_elem_of_lookup. exists k.
        by rewrite list_lookup_insert_ne.
  - destruct (stale w !! i) as [t|]; [|done].
    destruct (task_step (plugin w) j t) as [[[t' p'] evs']|]; [|done].
    by injection Hs as <- <-.
  - by rewrite (stuck_not_done f), andb_false_r in Hs.
Qed.

(** In a run with a script whose read fails, the hook never reports; once
    every check has settled, its promise has rejected. *)
Lemma failing_run_exec f e acts w w' evs :
  readFile f = Err e ->
  forallb in_run acts = true ->
  failing_run f w ->
  exec acts w = Some (w', evs) ->
  failing_run f w' /\
  (forall errs v, ~ In (EvReport errs v) evs) /\
  hook w' <> Resolved /\
  step AReport w' = None /\
  (forallb is_settled (pool w') = true -> exists e', hook w' = Rejected e').
Proof.
  intros Hr Hall Hw He.
  destruct (exec_invariant in_run (failing_run f)
    (fun ev => forall errs v, ev <> EvReport errs v))
    with (acts := acts) (w := w) (w' := w') (evs := evs) as [Hw' Hq];
    try done.
  { intros a w1 w2 evs1 Ha H1 Hs. split; [by eapply failing_run_step|].
    intros ev Hev errs v ->.
    destruct (step_report _ _ _ _ _ _ Hs Hev) as (_ & _ & _ & _ & _ & Hd & _).
    destruct H1 as [_ Hx]. by rewrite (stuck_not_done f) in Hd. }
  split_and!; try done.
  - intros errs v Hev. by eapply Hq.
  - destruct Hw' as [Hh _]. by destruct (hook w').
  - destruct Hw' as [_ Hx]. simpl.
    by rewrite (stuck_not_done f), andb_false_r.
  - intros Hset. destruct Hw' as [Hh Hx]. destruct (hook w'); try done; eauto.
    apply Exists_exists in Hx as (s & Hs & Hst).
    rewrite Forall_forall in Hh. specialize (Hh s Hs).
    rewrite forallb_forall in Hset. apply list_elem_of_In in Hs.
    specialize (Hset s Hs). destruct s; try done. by destruct (Hh e0).
Qed.

(** ** A script that is read is parsed *)

Lemma read_is_parsed f code i acts w w' evs :
  readFile f = Ok code ->
  forallb in_run acts = true ->
  exec acts w = Some (w', evs) ->
  pool w !! i = Some (TRead f) ->
  pool w' !! i = Some TDone ->
  In (EvParse f code (ecmaVersion (plugin w))) evs.
Proof.
  intros Hr. revert w evs.
  induction acts as [|a acts IH]; simpl; intros w evs Hall He Hi Hd.
  - injection He as <- <-. congruence.
  - apply andb_true_iff in Hall as [Ha Hall].
    destruct (step a w) as [[w1 evs1]|] eqn:Hs; [|done].
    destruct (exec acts w1) as [[w2 evs2]|] eqn:Hx; [|done].
    injection He as <- <-. apply in_or_app.
    pose proof (step_plugin _ _ _ _ Hs) as [(Hv & _) _].
    assert (pool w1 !! i = Some (TRead f) ->
            In (EvParse f code (ecmaVersion (plugin w))) evs2) as Hlater.
    { intros Hi1. rewrite <- Hv. by apply IH. }
    destruct a as [c|k j|k j|]; [done| | |]; simpl in Hs.
    + destruct (pool w !! k) as [t|] eqn:Hk; [|done].
      destruct (task_step (plugin w) j t) as [[[t' p'] evs']|] eqn:Ht; [|done].
      injection Hs as <- <-. destruct (decide (k = i)) as [->|Hne].
      * left. rewrite Hi in Hk. injection Hk as <-. simpl in Ht.
        rewrite Hr in Ht. unfold tryParse_enter in Ht.
        destruct (tryParse_try (plugin w) code); injection Ht as <- <- <-;
          by left.
      * right. apply Hlater. simpl. by rewrite list_lookup_insert_ne.
    + destruct (stale w !! k) as [t|]; [|done].
      destruct (task_step (plugin w) j t) as [[[t' p'] evs']|]; [|done].
      injection Hs as <- <-. right. by apply Hlater.
    + destruct (is_running (hook w) && forallb is_done (pool w)); [|done].
      injection Hs as <- <-. right. by apply Hlater.
Qed.

(** A hook that has resolved has seen all its checks resolve. *)
Lemma resolved_all_done acts w w' evs :
  forallb in_run acts = true ->
  hook w = Running ->
  exec acts w = Some (w', evs) ->
  hook w' = Resolved -> forallb is_done (pool w') = true.
Proof.
  intros Hall Hw He.
  destruct (exec_invariant in_run
    (fun w1 => hook w1 = Resolved -> forallb is_done (pool w1) = true)
    (fun _ => True))
    with (acts := acts) (w := w) (w' := w') (evs := evs) as [Hw' _];
    try done; [|by rewrite Hw].
  intros a w1 w2 evs1 Ha H1 Hs. split; [|done].
  destruct a as [c|i j|i j|]; [done| | |]; simpl in Hs.
  - destruct (pool w1 !! i) as [t|] eqn:Hi; [|done].
    destruct (task_step (plugin w1) j t) as [[[t' p'] evs']|] eqn:Ht; [|done].
    injection Hs as <- <-. simpl. intros Hres.
    assert (hook w1 = Resolved) as Hh by (by destruct (hook w1), t').
    specialize (H1 Hh). rewrite forallb_forall in H1.
    apply list_elem_of_lookup_2, list_elem_of_In, H1, is_done_spec in Hi.
    by subst.
  - destruct (stale w1 !! i) as [t|]; [|done].
    destruct (task_step (plugin w1) j t) as [[[t' p'] evs']|]; [|done].
    by injection Hs as <- <-.
  - destruct (is_running (hook w1)); [|done].
    destruct (forallb is_done (pool w1)) eqn:Hd; [|done].
    by injection Hs as <- <-.
Qed.

(** A run that has reported has seen all its checks resolve, and the
    promise of the callback is what the report made it. *)
Lemma reported_all_done acts w w' evs errs v :
  forallb in_run acts = true ->
  exec acts w = Some (w', evs) ->
  In (EvReport errs v) evs ->
  forallb is_done (pool w') = true /\
  hook w' = match printErrors errs v with
            | Ok _ => Resolved
            | Err e => Rejected e
            end.
Proof.
  intros Hall He Hev.
  destruct (exec_report _ _ _ _ _ _ He Hev)
    as (acts1 & acts2 & wa & evsa & -> & He1 & -> & -> & Hrun & Hdone).
  rewrite forallb_app in Hall. apply andb_true_iff in Hall as [_ Hall2].
  simpl in Hall2.
  rewrite exec_app, He1 in He. simpl in He.
  rewrite Hrun, Hdone in He. simpl in He.
  destruct (exec acts2 _) as [[w2 evs2]|] eqn:Hx; [|done].
  injection He as <- <-.
  eapply (reported_stable (report (plugin wa)) (pool wa)) in Hx as [Hh Hp];
    try done; [|apply report_not_running].
  by rewrite Hp, Hh.
Qed.

(** ** Every run settles *)

Lemma remaining_config p p' t :
  same_config p p' -> remaining p' t = remaining p t.
Proof.
  destruct p, p'. unfold same_config. simpl.
  intros (-> & -> & -> & -> & ->).
  unfold remaining, js_remaining, read_remaining, fragment_start,
    tryParse_enter, tryParse_try. simpl. done.
Qed.

Lemma fragments_done_remaining fs :
  forallb fragment_done fs = true ->
  list_sum (map fragment_remaining fs) = 0.
Proof. induction fs as [|[] fs IH]; simpl; [done|done|apply IH]. Qed.

Lemma fragment_resume_remaining fs j code err :
  fs !! j = Some (FBuild code err) ->
  list_sum (map fragment_remaining fs)
  = S (list_sum (map fragment_remaining (<[j := FDone]> fs))).
Proof.
  intros Hj.
  rewrite insert_take_drop by by eapply lookup_lt_Some.
  rewrite <- (take_drop_middle fs j _ Hj) at 1.
  rewrite !map_app, !list_sum_app. simpl. lia.
Qed.

Lemma task_step_remaining p j t t' p' evs :
  task_step p j t = Some (t', p', evs) ->
  remaining p t = S (remaining p t').
Proof.
  intros Hs. task_step_cases Hs; simpl; unfold read_remaining;
    rewrite ?E, ?E0; try done.
  - unfold check_js in *. unfold js_remaining.
    rewrite fragments_done_remaining by done.
    destruct (JS_REGEX filepath); by simplify_eq.
  - erewrite fragment_resume_remaining by done. done.
  - unfold tryParse_enter in *. by destruct (tryParse_try p' a).
  - unfold tryParse_enter in *. by destruct (tryParse_try p' a).
Qed.

Lemma unfinished_fragment fs :
  forallb fragment_done fs = false ->
  exists j code err, fs !! j = Some (FBuild code err).
Proof.
  induction fs as [|[code err|] fs IH]; simpl; [done| |].
  - intros _. by exists 0, code, err.
  - intros (j & code & err & Hj)%IH. by exists (S j), code, err.
Qed.

Lemma task_progress p t :
  is_settled t = false -> exists j r, task_step p j t = Some r.
Proof.
  destruct t as [f|f fs|f|f code err| |e]; simpl; try done; intros _.
  - exists 0. destruct (generateHtmlScripts f); eauto.
  - destruct (forallb fragment_done fs) eqn:Hd.
    + exists 0. destruct (check_js f); eauto.
    + destruct (unfinished_fragment _ Hd) as (j & code & err & Hj).
      exists j. rewrite Hj. destruct (tryParse_resume p f code err); eauto.
  - exists 0. destruct (readFile f); [|eauto].
    destruct (tryParse_enter p f a) as [[] ?]; eauto.
  - exists 0. destruct (tryParse_resume p f code err); eauto.
Qed.

Lemma unsettled_task ts :
  forallb is_settled ts = false ->
  exists i t, ts !! i = Some t /\ is_settled t = false.
Proof.
  induction ts as [|t ts IH]; simpl; [done|].
  destruct (is_settled t) eqn:Ht; simpl.
  - intros (i & t' & Hi & Ht')%IH. by exists (S i), t'.
  - intros _. by exists 0, t.
Qed.

Lemma workload_insert p ts i t t' :
  ts !! i = Some t ->
  workload p ts + remaining p t' = workload p (<[i := t']> ts) + remaining p t.
Proof.
  intros Hi. unfold workload.
  rewrite insert_take_drop by by eapply lookup_lt_Some.
  rewrite <- (take_drop_middle ts i t Hi) at 1.
  rewrite !map_app, !list_sum_app. simpl. lia.
Qed.

Lemma workload_config p p' ts :
  same_config p p' -> workload p' ts = workload p ts.
Proof.
  intros Hc. unfold workload. f_equal. apply map_ext. intros t.
  by apply remaining_config.
Qed.

Lemma settled_unrejected_done ts :
  forallb is_settled ts = true ->
  Forall (fun t => forall e, t <> TRejected e) ts ->
  forallb is_done ts = true.
Proof.
  intros Hset Hrej. apply forallb_forall. intros t Ht.
  rewrite forallb_forall in Hset. specialize (Hset t Ht).
  rewrite Forall_forall in Hrej. apply list_elem_of_In in Ht.
  specialize (Hrej t Ht). destruct t; try done. by destruct (Hrej e).
Qed.

(** From any world, the checks of the current run can be resumed until all
    have settled; a hook that was pending has then resolved or rejected. *)
Lemma run_settles (n : nat) :
  forall w,
    workload (plugin w) (pool w) <= n ->
    no_rejection_seen w ->
    exists acts w' evs,
      forallb in_run acts = true /\
      exec acts w = Some (w', evs) /\
      forallb is_settled (pool w') = true /\
      match hook w with
      | Running => hook w' = Resolved \/ exists e, hook w' = Rejected e
      | h => hook w' = h
      end.
Proof.
  induction n as [n IH] using lt_wf_ind. intros w Hn Hseen.
  destruct (forallb is_settled (pool w)) eqn:Hset.
  - (* nothing left to resume *)
    destruct (hook w) eqn:Hh.
    all: try (exists [], w, []; by rewrite Hh).
    pose proof (settled_unrejected_done _ Hset (Hseen Hh)) as Hdone.
    eexists [AReport], _, _. simpl. rewrite Hh, Hdone. simpl.
    split_and!; try done. apply report_cases.
  - (* resume one unsettled check *)
    destruct (unsettled_task _ Hset) as (i & t & Hi & Ht).
    destruct (task_progress (plugin w) t Ht) as (j & [[t' p'] evs] & Hs).
    pose proof (task_step_plugin _ _ _ _ _ _ Hs) as [Hc _].
    pose proof (task_step_remaining _ _ _ _ _ _ Hs) as Hrem.
    pose proof (workload_insert (plugin w) _ _ _ t' Hi) as Hwl.
    set (w1 := {| plugin := p'; pool := <[i := t']> (pool w);
                  stale := stale w; hook := settle (hook w) t' |}).
    assert (step (AResume i j) w = Some (w1, evs)) as Hstep
      by (simpl; by rewrite Hi, Hs).
    assert (workload (plugin w1) (pool w1) < n) as Hlt.
    { simpl. rewrite (workload_config (plugin w)) by done. lia. }
    assert (no_rejection_seen w1) as Hseen1.
    { intros Hrun. simpl in *. destruct (hook w) eqn:Hh; try done.
      destruct t'; try done; apply Forall_insert; auto; done. }
    destruct (IH _ Hlt w1 (Nat.le_refl _) Hseen1)
      as (acts & w' & evs' & Hall & He & Hset' & Hhook).
    exists (AResume i j :: acts), w', (evs ++ evs').
    split_and!; [done| |done|].
    + simpl in Hstep |- *. by rewrite Hstep, He.
    + simpl in Hhook. destruct (hook w); try done.
      destruct t'; simpl in Hhook; try done. right. eauto.
Qed.

(** A hook that fires starts a run that can be brought to its end. *)
Lemma started_run_settles w0 c w1 evs0 :
  step (AStart c) w0 = Some (w1, evs0) ->
  exists acts w evs,
    forallb in_run acts = true /\
    exec acts w1 = Some (w, evs) /\
    forallb is_settled (pool w) = true /\
    (hook w = Resolved \/ exists e, hook w = Rejected e).
Proof.
  intros Hs.
  destruct (run_inv_start _ _ _ _ Hs) as (_ & Hrun & Hpool).
  destruct (run_settles _ w1 (Nat.le_refl _)) as (acts & w & evs & ? & ? & ? & Hh).
  - intros _. rewrite Hpool. apply Forall_forall.
    intros t Ht%list_elem_of_In e. rewrite map_map in Ht.
    apply in_map_iff in Ht as (g & <- & _). apply check_start_not_rejected.
  - rewrite Hrun in Hh. by exists acts, w, evs.
Qed.

(** ** Construction *)

(** C6: an explicit [ecmaVersion] option becomes the version of the
    instance whatever the resolver would answer for [targets], even when it
    would throw; the version is derived from [targets] only when the option
    is absent. *)
Theorem explicit_ecmaVersion_wins {CE : Type}
    (resolver : list string -> result CE EcmaVersion)
    (options : CheckSyntaxOptions) :
  match opt_ecmaVersion options with
  | Some v =>
      exists p, ecmaVersion p = v /\
        forall (CE' : Type) (other : list string -> result CE' EcmaVersion),
          new_CheckSyntaxPlugin other options = Ok p
  | None =>
      match resolver (opt_targets options) with
      | Ok v =>
          exists p, new_CheckSyntaxPlugin resolver options = Ok p /\
            ecmaVersion p = v
      | Err e => new_CheckSyntaxPlugin resolver options = Err e
      end
  end.
Proof.
  unfold new_CheckSyntaxPlugin.
  destruct (opt_ecmaVersion options) as [v|].
  - eexists. split; [|intros CE' other; reflexivity]. done.
  - destruct (resolver (opt_targets options)) as [v|e]; [|done].
    eexists. by split.
Qed.

(** ** Parsing *)

(** C7: [tryParse] always resolves.  When [parse] returns, the error list
    is unchanged; when it throws, the thrown value goes to [generateError]
    and the list grows by exactly its result if that is non-null, and is
    unchanged if it is null.  A check resumed after a successful read ends up
    in the same state. *)
Theorem tryParse_never_throws (p : CheckSyntaxPlugin) (filepath code : string) :
  exists p', tryParse p filepath code = Ok p' /\
    same_config p p' /\
    match parse code (ecmaVersion p) with
    | Ok _ => errors p' = errors p
    | Err err =>
        match generateError err code filepath (exclude p) (rootPath p) with
        | Some error => errors p' = errors p ++ [error]
        | None => errors p' = errors p
        end
    end /\
    forall j, readFile filepath = Ok code ->
      (exists evs, task_step p j (TRead filepath) = Some (TDone, p', evs)) \/
      (exists err evs1 evs2,
         task_step p j (TRead filepath)
           = Some (TBuild filepath code err, p, evs1) /\
         task_step p j (TBuild filepath code err) = Some (TDone, p', evs2)).
Proof.
  assert (forall j fr evs, readFile filepath = Ok code ->
            tryParse_enter p filepath code = (fr, evs) ->
            task_step p j (TRead filepath) =
            Some (match fr with
                  | FDone => TDone
                  | FBuild c e => TBuild filepath c e
                  end, p, evs)) as Hread.
  { intros j fr evs Hr He. simpl. rewrite Hr, He. by destruct fr. }
  unfold tryParse_enter in Hread.
  unfold tryParse, tryParse_catch, tryParse_try in *.
  destruct (parse code (ecmaVersion p)) as [[]|err].
  - exists p. split_and!; try done.
    intros j Hr. left. eexists. by apply (Hread j FDone).
  - assert (forall j p' evs,
              tryParse_resume p filepath code err = (p', evs) ->
              task_step p j (TBuild filepath code err) = Some (TDone, p', evs))
      as Hbuild.
    { intros j p' evs He. simpl. by rewrite He. }
    unfold tryParse_resume in Hbuild.
    destruct (generateError err code filepath (exclude p) (rootPath p))
      as [error|].
    + exists (push_error p error). split_and!; try done.
      intros j Hr. right. exists err. do 2 eexists.
      split; [by apply (Hread j (FBuild code err))|by apply Hbuild].
    + exists p. split_and!; try done.
      intros j Hr. right. exists err. do 2 eexists.
      split; [by apply (Hread j (FBuild code err))|by apply Hbuild].
Qed.

(** ** Collecting *)

(** C9: without [outputOptions.path] the hook resolves every asset name
    against ['dist']: the files of the run are those collected under
    ['dist'], each one the resolution of a stripped asset name against it. *)
Theorem missing_output_path_is_dist (p : CheckSyntaxPlugin) (c : Compilation) :
  outputOptions_path c = None ->
  outputPath c = "dist"%string /\
  files p c =
    collect resolve (fun f => checkIsExclude f (excludeOutput p))
      "dist"%string (getAssets c) /\
  forall f, In f (files p c) ->
    exists a, In a (getAssets c) /\
      f = resolve "dist"%string (strip_query (name a)).
Proof.
  intros Hpath. unfold files, outputPath. rewrite Hpath.
  split_and!; try done.
  intros f (a & Ha & _ & Hf & _)%in_collect. eauto.
Qed.

Lemma filter_has_source_drop (l1 l2 : list Asset) (a : Asset) :
  source a = None ->
  List.filter has_source (l1 ++ a :: l2) = List.filter has_source (l1 ++ l2).
Proof.
  intros Ha. rewrite !List.filter_app. simpl.
  unfold has_source at 2. by rewrite Ha.
Qed.

(** C8: an asset without [source] leaves no trace.  The files collected,
    and with them the whole run the hook starts, are those of the asset
    list without it; and the result does not depend on what [resolve] and
    [checkIsExclude] would answer for it, since only assets with a source
    reach them. *)
Theorem sourceless_asset_is_dropped (p : CheckSyntaxPlugin)
    (path : option string) (l1 l2 : list Asset) (a : Asset) :
  source a = None ->
  let c := {| outputOptions_path := path; getAssets := l1 ++ a :: l2 |} in
  let c' := {| outputOptions_path := path; getAssets := l1 ++ l2 |} in
  files p c = files p c' /\
  (forall w, step (AStart c) w = step (AStart c') w) /\
  forall res res' excluded excluded' out,
    (forall b, In b (l1 ++ l2) -> has_source b = true ->
       res out (strip_query (name b)) = res' out (strip_query (name b)) /\
       excluded (res out (strip_query (name b)))
       = excluded' (res out (strip_query (name b)))) ->
    collect res excluded out (l1 ++ a :: l2)
    = collect res' excluded' out (l1 ++ a :: l2).
Proof.
  intros Ha c c'.
  assert (forall q, files q c = files q c') as Hfiles.
  { intros q. unfold files, collect, outputPath. simpl.
    by rewrite filter_has_source_drop. }
  split_and!; [done| |].
  - intros w. simpl. by rewrite Hfiles.
  - intros res res' excluded excluded' out Hagree.
    unfold collect. rewrite filter_has_source_drop by done. f_equal.
    apply map_ext_in. intros b [Hb Hsrc]%filter_In.
    destruct (Hagree b Hb Hsrc) as [Hres Hex].
    unfold asset_file. by rewrite <- Hres, <- Hex.
Qed.

(** C4, as the code has it.  The output path is
    [compilation.outputOptions.path] when that is set and not empty, and
    ['dist'] otherwise.  The files of a run are exactly the resolutions,
    against the output path, of the query-stripped names of the assets that
    have a source, are not matched by [excludeOutput] and end in an HTML or
    JavaScript extension; a stripped name holds no question mark and is the
    part of the name before the first one.  With the [resolve] of
    [node:path], the resolution is always an absolute path; it lies under
    the output directory, followed by the names of the asset, when the
    stripped name is relative and does not climb with [..]; an absolute
    name is resolved on its own, whatever the output path.  And whatever the
    schedule and however many runs, every call of [generateHtmlScripts],
    [readFile] and [parse] and every pushed error is about a file that
    [excludeOutput] does not match and that has one of the two
    extensions. *)
Theorem collecting_filters_output (p : CheckSyntaxPlugin) (c : Compilation) :
  (forall path, outputOptions_path c = Some path -> path <> EmptyString ->
     outputPath c = path) /\
  (outputOptions_path c = None \/ outputOptions_path c = Some EmptyString ->
     outputPath c = "dist"%string) /\
  (forall f, In f (files p c) <->
     exists a, In a (getAssets c) /\ has_source a = true /\
       f = resolve (outputPath c) (strip_query (name a)) /\
       checkIsExclude f (excludeOutput p) = false /\
       HTML_REGEX f || JS_REGEX f = true) /\
  (forall a : Asset,
     ~ In "?"%char (String.list_ascii_of_string (strip_query (name a))) /\
     exists rest, name a = String.append (strip_query (name a)) rest /\
       (rest = EmptyString \/ exists r, rest = String "?"%char r)) /\
  (forall cwd,
     (forall from to, resolve from to = posix_resolve cwd from to) ->
     let dir := resolve_dir cwd (outputPath c) in
     resolve (outputPath c) "" = render dir /\
     forall a : Asset,
       let n := strip_query (name a) in
       is_absolute (asset_path (outputPath c) a) = true /\
       (is_absolute n = false -> ~ In ".."%string (split_path n) ->
        asset_path (outputPath c) a
        = render (dir ++ List.filter is_name (split_path n))) /\
       (is_absolute n = true ->
        asset_path (outputPath c) a = render (walk [] (split_path n)))) /\
  (forall acts w evs, exec acts (init p) = Some (w, evs) ->
     forall ev f, In ev evs -> event_file ev = Some f ->
       checkIsExclude f (excludeOutput p) = false /\
       HTML_REGEX f || JS_REGEX f = true).
Proof.
  split_and!.
  - intros path Hpath Hne. unfold outputPath. rewrite Hpath.
    by destruct path.
  - unfold outputPath. by intros [->| ->].
  - intros f. apply in_collect.
  - intros a. split; [apply strip_query_clean|apply strip_query_prefix].
  - intros cwd Hnode dir. split; [by rewrite Hnode|].
    intros a n. unfold asset_path. fold n. rewrite Hnode.
    unfold posix_resolve. split_and!; [done| |].
    + intros -> Hup. fold dir. by rewrite walk_plain.
    + by intros ->.
  - intros acts w evs He ev f Hev Hf.
    destruct (exec_events _ _ _ _ (init_ok p) He) as [_ Hq].
    destruct (Hq ev Hev) as (Hadm & _). by apply Hadm.
Qed.

(** ** The grammar version *)

(** C10: the version the constructor stored (the option if given, else the
    resolver's answer) is the version of the instance after any schedule of
    any number of runs, and the version every call of [parse] and of
    [printErrors] receives. *)
Theorem ecmaVersion_is_constant {CE : Type}
    (resolver : list string -> result CE EcmaVersion)
    (options : CheckSyntaxOptions) (p : CheckSyntaxPlugin) :
  new_CheckSyntaxPlugin resolver options = Ok p ->
  match opt_ecmaVersion options with
  | Some v => ecmaVersion p = v
  | None => resolver (opt_targets options) = Ok (ecmaVersion p)
  end /\
  forall acts w evs, exec acts (init p) = Some (w, evs) ->
    ecmaVersion (plugin w) = ecmaVersion p /\
    forall ev v, In ev evs -> event_version ev = Some v -> v = ecmaVersion p.
Proof.
  intros Hnew. split.
  - unfold new_CheckSyntaxPlugin in Hnew.
    destruct (opt_ecmaVersion options) as [v|].
    + by injection Hnew as <-.
    + destruct (resolver (opt_targets options)) as [v|e]; [|done].
      by injection Hnew as <-.
  - intros acts w evs He. split.
    + by apply exec_plugin in He as [(Hv & _) _].
    + intros ev v Hev Hv.
      destruct (exec_events _ _ _ _ (init_ok p) He) as [_ Hq].
      destruct (Hq ev Hev) as (_ & Hver & _). by apply Hver.
Qed.

(** ** The error list across runs *)

(** C1, as the code has it: nothing resets [errors].  Along any schedule
    the list is the list at the outset followed by every error pushed since;
    a hook that fires leaves it as it is; and every report shows the list at
    the outset followed by every error pushed before the report, those of
    earlier runs included. *)
Theorem errors_accumulate_across_runs (acts : list action) (w w' : world)
    (evs : list event) :
  exec acts w = Some (w', evs) ->
  errors (plugin w') = errors (plugin w) ++ pushed evs /\
  (forall c w1 evs1, step (AStart c) w' = Some (w1, evs1) ->
     errors (plugin w1) = errors (plugin w')) /\
  (forall pre errs v post, evs = pre ++ EvReport errs v :: post ->
     errs = errors (plugin w) ++ pushed pre).
Proof.
  intros He. split_and!.
  - by apply exec_plugin in He as [_ ?].
  - intros c w1 evs1 Hs. simpl in Hs.
    destruct (is_running (hook w')); [done|]. by injection Hs as <- <-.
  - intros pre errs v post Hsplit. by eapply exec_report_split.
Qed.

(** ** Reporting *)

(** C5: in a run, [printErrors] is called only in a world where every
    check the run dispatched has resolved, one check per collected file.
    The list it prints holds the list as it was when the hook fired and
    every error the checks of the run produce, each once, in some order,
    plus whatever checks left over from earlier runs pushed in between
    (nothing, when none was left).  After the report the run does nothing
    more: the promise of the callback is settled by the outcome of the
    call, resolved when [printErrors] returns and rejected with what it
    throws, and the checks stay as they were. *)
Theorem report_waits_for_every_check (w0 w1 w : world) (c : Compilation)
    (evs0 evs : list event) (acts : list action)
    (errs : list ECMASyntaxError) (v : EcmaVersion) :
  step (AStart c) w0 = Some (w1, evs0) ->
  forallb in_run acts = true ->
  exec acts w1 = Some (w, evs) ->
  In (EvReport errs v) evs ->
  let p := plugin w0 in
  let expected := concat (map (check_errors p) (files p c)) in
  exists acts1 acts2 wa evsa,
    acts = acts1 ++ AReport :: acts2 /\
    exec acts1 w1 = Some (wa, evsa) /\
    errs = errors (plugin wa) /\ v = ecmaVersion p /\
    length (pool wa) = length (files p c) /\
    Forall (fun t => t = TDone) (pool wa) /\
    (exists pushed_stale rest,
       errs ≡ₚ errors p ++ expected ++ pushed_stale /\
       pushed_stale ++ rest ≡ₚ owed p (stale w1)) /\
    (owed p (stale w1) = [] -> errs ≡ₚ errors p ++ expected) /\
    hook w = match printErrors errs v with
             | Ok _ => Resolved
             | Err e => Rejected e
             end /\
    pool w = pool wa.
Proof.
  intros Hstart Hall He Hev p expected.
  destruct (exec_report _ _ _ _ _ _ He Hev)
    as (acts1 & acts2 & wa & evsa & -> & He1 & -> & -> & Hrun & Hdone).
  rewrite forallb_app in Hall. apply andb_true_iff in Hall as [Hall1 Hall2].
  simpl in Hall2.
  destruct (run_inv_start _ _ _ _ Hstart) as (Hinv & _ & _).
  pose proof (run_inv_exec _ _ _ _ _ _ _ _ _ Hall1 Hinv He1)
    as (Hc & Hn & now & old & Herr & Hnow & Hold).
  rewrite (owed_done _ _ Hdone), app_nil_r in Hnow.
  assert (errors (plugin wa) ≡ₚ errors p ++ expected ++ old) as Hperm.
  { rewrite Herr. by rewrite Hnow. }
  exists acts1, acts2, wa, evsa. split_and!; try done.
  - by destruct Hc as [-> _].
  - apply Forall_forall. intros t Ht%list_elem_of_In.
    rewrite forallb_forall in Hdone. by apply is_done_spec, Hdone.
  - by exists old, (owed p (stale wa)).
  - intros Hnone. fold p in Hold. rewrite Hnone in Hold.
    apply Permutation_nil_r in Hold. apply app_eq_nil in Hold as [-> _].
    by rewrite app_nil_r in Hperm.
  - rewrite exec_app, He1 in He. simpl in He.
    rewrite Hrun, Hdone in He. simpl in He.
    destruct (exec acts2 _) as [[w2 evs2]|] eqn:Hx; [|done].
    injection He as <- <-.
    eapply (reported_stable (report (plugin wa)) (pool wa)) in Hx as [? _];
      try done. apply report_not_running.
  - rewrite exec_app, He1 in He. simpl in He.
    rewrite Hrun, Hdone in He. simpl in He.
    destruct (exec acts2 _) as [[w2 evs2]|] eqn:Hx; [|done].
    injection He as <- <-.
    eapply (reported_stable (report (plugin wa)) (pool wa)) in Hx as [_ ?];
      try done. apply report_not_running.
Qed.

(** ** Failures of the file system *)

(** C2, as the code has it: the read of a script is not guarded.  When it
    fails for one collected script, the run never reaches [printErrors],
    whatever the schedule; the hook's promise does not resolve, and once
    every check of the run has settled it has rejected.  The checks can
    always be resumed until they have all settled, so the run does end, with
    a rejected hook. *)
Theorem read_failure_rejects_run (w0 w1 w : world) (c : Compilation)
    (evs0 evs : list event) (f : string) (e : Exn) (acts : list action) :
  step (AStart c) w0 = Some (w1, evs0) ->
  In f (files (plugin w0) c) ->
  JS_REGEX f = true ->
  readFile f = Err e ->
  forallb in_run acts = true ->
  exec acts w1 = Some (w, evs) ->
  (forall errs v, ~ In (EvReport errs v) evs) /\
  hook w <> Resolved /\
  step AReport w = None /\
  (forallb is_settled (pool w) = true -> exists e', hook w = Rejected e') /\
  exists acts' w' evs',
    forallb in_run acts' = true /\
    exec acts' w1 = Some (w', evs') /\
    forallb is_settled (pool w') = true /\
    exists e', hook w' = Rejected e'.
Proof.
  intros Hstart Hf Hj Hr Hall He.
  pose proof (failing_run_start _ _ _ _ _ Hstart Hf Hj) as Hw1.
  destruct (failing_run_exec _ _ _ _ _ _ Hr Hall Hw1 He)
    as (_ & Hrep & Hres & Hoff & Hrej).
  split_and!; try done.
  destruct (started_run_settles _ _ _ _ Hstart)
    as (acts' & w' & evs' & Hall' & He' & Hset' & Hh').
  exists acts', w', evs'. split_and!; try done.
  by destruct (failing_run_exec _ _ _ _ _ _ Hr Hall' Hw1 He')
    as (_ & _ & _ & _ & Hrej'); auto.
Qed.

(** ** The [exclude] rule *)

(** C3, as the code has it: [exclude] guards the parse of HTML fragments
    only.  No fragment of a document that [exclude] matches is ever parsed,
    in any run.  A script that [exclude] matches is still read and parsed:
    every run that reports, and so every run whose promise resolves, has
    parsed its content. *)
Theorem exclude_guards_html_fragments_only (p : CheckSyntaxPlugin)
    (f : string) :
  checkIsExclude f (exclude p) = true ->
  (HTML_REGEX f = true ->
   forall acts w evs, exec acts (init p) = Some (w, evs) ->
     forall code v, ~ In (EvParse f code v) evs) /\
  (JS_REGEX f = true ->
   forall w0 c w1 evs0 acts w evs code,
     plugin w0 = p ->
     step (AStart c) w0 = Some (w1, evs0) ->
     In f (files p c) ->
     readFile f = Ok code ->
     forallb in_run acts = true ->
     exec acts w1 = Some (w, evs) ->
     (hook w = Resolved \/ exists errs v, In (EvReport errs v) evs) ->
     In (EvParse f code (ecmaVersion p)) evs).
Proof.
  intros Hex. split.
  - intros Hh acts w evs He code v Hev.
    destruct (exec_events _ _ _ _ (init_ok p) He) as [_ Hq].
    destruct (Hq _ Hev) as (_ & _ & Hp).
    destruct (Hp _ _ _ eq_refl) as [[_ Hne]|Hj]; simpl in *.
    + congruence.
    + apply html_not_js in Hh. congruence.
  - intros Hj w0 c w1 evs0 acts w evs code <- Hstart Hf Hr Hall He Hres.
    destruct (run_inv_start _ _ _ _ Hstart) as ((Hc & Hn & _) & Hrun & Hpool).
    apply list_elem_of_In, list_elem_of_lookup in Hf as [i Hi].
    assert (pool w1 !! i = Some (TRead f)) as Hi1.
    { rewrite Hpool, map_map, list_lookup_fmap, Hi. simpl.
      by rewrite check_start_js. }
    destruct Hc as (<- & _).
    eapply read_is_parsed; try done.
    assert (forallb is_done (pool w) = true) as Hd.
    { destruct Hres as [Hres|(errs & v & Hev)].
      - by eapply resolved_all_done.
      - by eapply reported_all_done. }
    pose proof (run_inv_exec _ _ _ _ _ _ _ _ _ Hall
                  (proj1 (run_inv_start _ _ _ _ Hstart)) He) as (_ & Hn' & _).
    assert (i < length (pool w)) as Hlt.
    { rewrite Hn', <- Hn. by eapply lookup_lt_Some. }
    apply lookup_lt_is_Some in Hlt as [t Ht]. rewrite Ht. f_equal.
    rewrite forallb_forall in Hd.
    by apply is_done_spec, Hd, list_elem_of_In, list_elem_of_lookup_2 with i.
Qed.

(** * Further properties of the code *)

(** ** What Collecting keeps *)

Lemma files_as_filter (p : CheckSyntaxPlugin) (c : Compilation) :
  files p c =
  map (asset_path (outputPath c))
    (List.filter (collected p (outputPath c)) (getAssets c)).
Proof.
  unfold files, collect, collected, asset_path, asset_file.
  induction (getAssets c) as [|a assets IH]; [done|].
  cbn [List.filter]. destruct (has_source a); cbn [andb]; [|exact IH].
  cbn [map List.filter].
  destruct (checkIsExclude _ (excludeOutput p)); cbn [negb andb].
  - rewrite patterns_reject_empty. exact IH.
  - destruct (HTML_REGEX _ || JS_REGEX _); cbn [map]; by rewrite IH.
Qed.

(** X1: the files of a run are the paths of the assets that have a source,
    are not matched by [excludeOutput] and have one of the extensions, in
    the order of the assets and once per asset: nothing is reordered and
    nothing is merged, so two assets that stand for one path are checked
    twice. *)
Theorem files_keep_order_and_duplicates (p : CheckSyntaxPlugin)
    (c : Compilation) :
  files p c =
    map (asset_path (outputPath c))
      (List.filter (collected p (outputPath c)) (getAssets c)) /\
  length (files p c) <= length (getAssets c) /\
  forall l1 a l2 b l3,
    getAssets c = l1 ++ a :: l2 ++ b :: l3 ->
    collected p (outputPath c) a = true ->
    collected p (outputPath c) b = true ->
    exists k1 k2 k3,
      files p c =
      k1 ++ asset_path (outputPath c) a :: k2
         ++ asset_path (outputPath c) b :: k3.
Proof.
  split_and!.
  - apply files_as_filter.
  - rewrite files_as_filter, length_map. apply List.filter_length_le.
  - intros l1 a l2 b l3 Hc Ha Hb. rewrite files_as_filter, Hc.
    rewrite List.filter_app. cbn [List.filter]. rewrite Ha.
    rewrite List.filter_app. cbn [List.filter]. rewrite Hb.
    rewrite map_app. cbn [map]. rewrite map_app. cbn [map]. eauto.
Qed.

(** ** The query of an asset name *)

Lemma strip_query_append (pre rest : string) :
  ~ In "?"%char (String.list_ascii_of_string pre) ->
  strip_query (String.append pre rest) = String.append pre (strip_query rest).
Proof.
  induction pre as [|ch pre IH]; intros Hpre.
  - by rewrite !append_empty.
  - rewrite !append_cons. cbn [strip_query].
    cbn [String.list_ascii_of_string] in Hpre.
    destruct (Ascii.eqb_spec ch "?"%char) as [->|_].
    + destruct Hpre. by left.
    + rewrite IH; [done|]. intros Hin. apply Hpre. by right.
Qed.

Lemma append_empty_r (s : string) : String.append s EmptyString = s.
Proof.
  induction s as [|ch s IH]; [done|]. by rewrite append_cons, IH.
Qed.

(** X2: [split('?')[0]] keeps a name without question mark as it is, cuts a
    name at its first question mark whatever follows, and cutting twice is
    cutting once. *)
Theorem strip_query_cuts_at_first_mark (pre : string) :
  ~ In "?"%char (String.list_ascii_of_string pre) ->
  strip_query pre = pre /\
  (forall query,
     strip_query (String.append pre (String "?"%char query)) = pre) /\
  (forall name, strip_query (strip_query name) = strip_query name).
Proof.
  intros Hpre.
  assert (forall s, ~ In "?"%char (String.list_ascii_of_string s) ->
                    strip_query s = s) as Hid.
  { intros s Hs. rewrite <- (append_empty_r s) at 1.
    rewrite strip_query_append by done. apply append_empty_r. }
  split_and!.
  - by apply Hid.
  - intros query. rewrite strip_query_append by done. cbn [strip_query].
    rewrite Ascii.eqb_refl. apply append_empty_r.
  - intros name. apply Hid, strip_query_clean.
Qed.

(** ** The two patterns *)

(** X3: a path is taken for a script exactly when it ends in [.js], [.mjs],
    [.cjs] or [.jsx], for a document exactly when it ends in [.html], and
    never for both; the empty path is neither. *)
Theorem patterns_match_extensions (f : string) :
  (HTML_REGEX f = true <-> exists pre, f = String.append pre ".html") /\
  (JS_REGEX f = true <->
     exists pre ext, f = String.append pre ext /\
       In ext [".js"; ".mjs"; ".cjs"; ".jsx"]%string) /\
  (HTML_REGEX f = true -> JS_REGEX f = false) /\
  (f = EmptyString -> HTML_REGEX f = false /\ JS_REGEX f = false).
Proof.
  split_and!.
  - apply ends_with_spec.
  - unfold JS_REGEX. rewrite !orb_true_iff, !ends_with_spec. split.
    + intros [[[[pre ->]|[pre ->]]|[pre ->]]|[pre ->]];
        exists pre; eexists; (split; [done|]); simpl; tauto.
    + intros (pre & ext & -> & [<-|[<-|[<-|[<-|[]]]]]); eauto.
  - apply html_not_js.
  - by intros ->.
Qed.

(** ** The hook reports at most once *)

Lemma task_step_silent p j t t' p' evs ev :
  task_step p j t = Some (t', p', evs) -> In ev evs -> is_report ev = false.
Proof.
  intros Hs Hev. destruct (task_step_events _ _ _ _ _ _ Hs) as (f & _ & Hall).
  destruct (Hall _ Hev) as [Hf _]. by destruct ev.
Qed.

Lemma no_reports (evs : list event) :
  (forall ev, In ev evs -> is_report ev = false) ->
  List.filter is_report evs = [].
Proof.
  induction evs as [|ev evs IH]; [done|]. intros Hall. cbn [List.filter].
  rewrite (Hall ev) by by left. apply IH. intros ev' Hev. apply Hall.
  by right.
Qed.

Lemma step_report_count a w w' evs :
  in_run a = true ->
  step a w = Some (w', evs) ->
  length (List.filter is_report evs) + (if is_running (hook w') then 1 else 0)
  <= if is_running (hook w) then 1 else 0.
Proof.
  intros Ha Hs. destruct a as [c|i j|i j|]; [done| | |]; simpl in Hs.
  - destruct (pool w !! i) as [t|]; [|done].
    destruct (task_step (plugin w) j t) as [[[t' p'] evs']|] eqn:Ht; [|done].
    injection Hs as <- <-. simpl.
    rewrite no_reports by (intros ev; by eapply task_step_silent).
    destruct (hook w), t'; simpl; lia.
  - destruct (stale w !! i) as [t|]; [|done].
    destruct (task_step (plugin w) j t) as [[[t' p'] evs']|] eqn:Ht; [|done].
    injection Hs as <- <-. simpl.
    rewrite no_reports by (intros ev; by eapply task_step_silent).
    simpl. lia.
  - destruct (hook w); try done. simpl in Hs.
    destruct (forallb is_done (pool w)); [|done]. injection Hs as <- <-.
    simpl. rewrite report_not_running. lia.
Qed.

Lemma exec_report_count acts w w' evs :
  forallb in_run acts = true ->
  exec acts w = Some (w', evs) ->
  length (List.filter is_report evs) + (if is_running (hook w') then 1 else 0)
  <= if is_running (hook w) then 1 else 0.
Proof.
  revert w evs. induction acts as [|a acts IH]; simpl; intros w evs Hall He.
  - injection He as <- <-. simpl. lia.
  - apply andb_true_iff in Hall as [Ha Hall].
    destruct (step a w) as [[w1 evs1]|] eqn:Hs; [|done].
    destruct (exec acts w1) as [[w2 evs2]|] eqn:Hx; [|done].
    injection He as <- <-. rewrite List.filter_app, length_app.
    pose proof (step_report_count _ _ _ _ Ha Hs).
    pose proof (IH _ _ Hall Hx). lia.
Qed.

(** Short of a report the promise of the callback does not resolve. *)
Lemma exec_unreported acts w w' evs :
  forallb in_run acts = true ->
  hook w <> Resolved ->
  exec acts w = Some (w', evs) ->
  List.filter is_report evs = [] ->
  hook w' <> Resolved.
Proof.
  revert w evs. induction acts as [|a acts IH]; simpl;
    intros w evs Hall Hw He Hnone.
  - by injection He as <- <-.
  - apply andb_true_iff in Hall as [Ha Hall].
    destruct (step a w) as [[w1 evs1]|] eqn:Hs; [|done].
    destruct (exec acts w1) as [[w2 evs2]|] eqn:Hx; [|done].
    injection He as <- <-. rewrite List.filter_app in Hnone.
    apply app_eq_nil in Hnone as [Hnone1 Hnone2].
    apply (IH w1 evs2); try done.
    destruct a as [c|i j|i j|]; [done| | |]; simpl in Hs.
    + destruct (pool w !! i) as [t|]; [|done].
      destruct (task_step (plugin w) j t) as [[[t' p'] evs']|]; [|done].
      injection Hs as <- <-. simpl. by destruct (hook w), t'.
    + destruct (stale w !! i) as [t|]; [|done].
      destruct (task_step (plugin w) j t) as [[[t' p'] evs']|]; [|done].
      by injection Hs as <- <-.
    + destruct (is_running (hook w) && forallb is_done (pool w)); [|done].
      by injection Hs as <- <-.
Qed.

Lemma reported (evs : list event) :
  List.filter is_report evs <> [] -> exists errs v, In (EvReport errs v) evs.
Proof.
  destruct (List.filter is_report evs) as [|ev rest] eqn:Hf; [done|].
  intros _.
  assert (In ev (List.filter is_report evs)) as Hin by (rewrite Hf; by left).
  apply filter_In in Hin as [Hin Hrep]. destruct ev; try done. eauto.
Qed.

(** X4: in one run [printErrors] is called at most once, not while the
    checks are dispatched and not while the promise of the callback is
    pending afterwards.  The call settles the promise: it is resolved when
    [printErrors] returned and rejected with what [printErrors] threw, and
    stays so for the rest of the run.  The promise resolves in no other
    way. *)
Theorem hook_reports_at_most_once (w0 w1 w : world) (c : Compilation)
    (evs0 evs : list event) (acts : list action) :
  step (AStart c) w0 = Some (w1, evs0) ->
  forallb in_run acts = true ->
  exec acts w1 = Some (w, evs) ->
  List.filter is_report evs0 = [] /\
  length (List.filter is_report evs) <= 1 /\
  (hook w = Running -> List.filter is_report evs = []) /\
  (forall errs v, In (EvReport errs v) evs ->
     hook w = match printErrors errs v with
              | Ok _ => Resolved
              | Err e => Rejected e
              end) /\
  (hook w = Resolved ->
   exists errs v, In (EvReport errs v) evs /\ printErrors errs v = Ok tt).
Proof.
  intros Hstart Hall He.
  destruct (run_inv_start _ _ _ _ Hstart) as (_ & Hrun & _).
  pose proof (exec_report_count _ _ _ _ Hall He) as Hcount.
  rewrite Hrun in Hcount. simpl in Hcount.
  assert (forall errs v, In (EvReport errs v) evs ->
            hook w = match printErrors errs v with
                     | Ok _ => Resolved
                     | Err e => Rejected e
                     end) as Hsettled.
  { intros errs v Hev. by eapply reported_all_done. }
  split_and!; [|lia| |done|].
  - apply no_reports. intros ev Hev. simpl in Hstart.
    destruct (is_running (hook w0)); [done|]. injection Hstart as <- <-.
    apply files_started_spec in Hev as (g & _ & Hf & _). by destruct ev.
  - intros Hh. rewrite Hh in Hcount. simpl in Hcount.
    destruct (List.filter is_report evs); [done|]. simpl in Hcount. lia.
  - intros Hres.
    destruct (reported evs) as (errs & v & Hev).
    { intros Hnone. eapply exec_unreported; try done. by rewrite Hrun. }
    exists errs, v. split; [done|].
    specialize (Hsettled _ _ Hev). rewrite Hres in Hsettled.
    by destruct (printErrors errs v) as [[]|].
Qed.

(** ** Every run ends *)

Lemma step_workload a w w' evs :
  in_run a = true ->
  step a w = Some (w', evs) ->
  (if is_resume a then 1 else 0) + workload (plugin w') (pool w')
  = workload (plugin w) (pool w).
Proof.
  intros Ha Hs. destruct a as [c|i j|i j|]; [done| | |]; simpl in Hs.
  - destruct (pool w !! i) as [t|] eqn:Hi; [|done].
    destruct (task_step (plugin w) j t) as [[[t' p'] evs']|] eqn:Ht; [|done].
    injection Hs as <- <-. simpl.
    pose proof (task_step_plugin _ _ _ _ _ _ Ht) as [Hc _].
    pose proof (task_step_remaining _ _ _ _ _ _ Ht) as Hrem.
    pose proof (workload_insert (plugin w) _ _ _ t' Hi) as Hwl.
    rewrite (workload_config (plugin w)) by done. lia.
  - destruct (stale w !! i) as [t|] eqn:Hi; [|done].
    destruct (task_step (plugin w) j t) as [[[t' p'] evs']|] eqn:Ht; [|done].
    injection Hs as <- <-. simpl.
    pose proof (task_step_plugin _ _ _ _ _ _ Ht) as [Hc _].
    by rewrite (workload_config (plugin w)).
  - destruct (is_running (hook w) && forallb is_done (pool w)); [|done].
    by injection Hs as <- <-.
Qed.

Lemma exec_workload acts w w' evs :
  forallb in_run acts = true ->
  exec acts w = Some (w', evs) ->
  length (List.filter is_resume acts) + workload (plugin w') (pool w')
  = workload (plugin w) (pool w).
Proof.
  revert w evs. induction acts as [|a acts IH]; simpl; intros w evs Hall He.
  - by injection He as <- <-.
  - apply andb_true_iff in Hall as [Ha Hall].
    destruct (step a w) as [[w1 evs1]|] eqn:Hs; [|done].
    destruct (exec acts w1) as [[w2 evs2]|] eqn:Hx; [|done].
    injection He as <- <-.
    pose proof (step_workload _ _ _ _ Ha Hs).
    pose proof (IH _ _ Hall Hx).
    destruct (is_resume a); simpl in *; lia.
Qed.

Lemma settled_workload p ts :
  forallb is_settled ts = true -> workload p ts = 0.
Proof.
  unfold workload. induction ts as [|[] ts IH]; simpl; try done.
Qed.

(** X5: a run always ends.  Whatever the schedule, the checks of a run are
    resumed no more often than the work they had at dispatch; the schedules
    that settle every check all resume exactly that often; and such a
    schedule always exists, leaving the hook resolved or rejected. *)
Theorem every_run_ends (w0 w1 : world) (c : Compilation)
    (evs0 : list event) :
  step (AStart c) w0 = Some (w1, evs0) ->
  let work := workload (plugin w1) (pool w1) in
  (forall acts w evs,
     forallb in_run acts = true ->
     exec acts w1 = Some (w, evs) ->
     length (List.filter is_resume acts) <= work /\
     (forallb is_settled (pool w) = true ->
      length (List.filter is_resume acts) = work)) /\
  exists acts w evs,
    forallb in_run acts = true /\
    exec acts w1 = Some (w, evs) /\
    forallb is_settled (pool w) = true /\
    (hook w = Resolved \/ exists e, hook w = Rejected e).
Proof.
  intros Hstart work. split.
  - intros acts w evs Hall He.
    pose proof (exec_workload _ _ _ _ Hall He) as Hwl. fold work in Hwl.
    split; [lia|]. intros Hset.
    rewrite (settled_workload _ _ Hset) in Hwl. lia.
  - by eapply started_run_settles.
Qed.

(** ** Every collected file is opened once *)

Lemma files_open_events p (fs : list string) :
  Forall (admitted p) fs ->
  concat (map snd (map check_start fs)) = map open_event fs.
Proof.
  induction 1 as [|f fs [_ Hty] _ IH]; [done|]. simpl. rewrite IH.
  unfold check_start, check_js, open_event.
  destruct (HTML_REGEX f); [done|]. simpl in Hty. by rewrite Hty.
Qed.

Lemma task_step_no_open p j t t' p' evs ev :
  task_ok p t ->
  task_step p j t = Some (t', p', evs) ->
  In ev evs -> is_open ev = false.
Proof.
  intros Hok Hs. task_step_cases Hs; simpl in Hok;
    repeat match goal with
      | E : tryParse_resume _ _ _ _ = _ |- _ =>
          unfold tryParse_resume in E;
          destruct (generateError _ _ _ _ _); injection E as <- <-
      end;
    use_specs; try (by intros [<-|[]]); try done.
  - by intros (_ & script & _ & ->)%fragments_start_events.
  - destruct Hok as [_ Hh]. apply html_not_js in Hh. intros Hev.
    match goal with Hx : forall _, In _ _ -> _ /\ _ |- _ =>
      destruct (Hx _ Hev) as [_ ?] end. congruence.
Qed.

Lemma exec_no_open acts w w' evs :
  world_ok w ->
  forallb in_run acts = true ->
  exec acts w = Some (w', evs) ->
  forall ev, In ev evs -> is_open ev = false.
Proof.
  intros Hw Hall He.
  destruct (exec_invariant in_run world_ok (fun ev => is_open ev = false))
    with (acts := acts) (w := w) (w' := w') (evs := evs) as [_ Hq];
    try done.
  intros a w1 w2 evs1 Ha Hok Hs. split; [by eapply step_ok|].
  intros ev Hev. destruct Hok as [Hpool Hstale].
  destruct a as [c|i j|i j|]; [done| | |]; simpl in Hs.
  - destruct (pool w1 !! i) as [t|] eqn:Hi; [|done].
    destruct (task_step (plugin w1) j t) as [[[t' p'] evs']|] eqn:Ht; [|done].
    injection Hs as <- <-. eapply Forall_lookup_1 in Hi; [|exact Hpool].
    by eapply task_step_no_open.
  - destruct (stale w1 !! i) as [t|] eqn:Hi; [|done].
    destruct (task_step (plugin w1) j t) as [[[t' p'] evs']|] eqn:Ht; [|done].
    injection Hs as <- <-. eapply Forall_lookup_1 in Hi; [|exact Hstale].
    by eapply task_step_no_open.
  - destruct (is_running (hook w1) && forallb is_done (pool w1)); [|done].
    injection Hs as <- <-. by destruct Hev as [<-|[]].
Qed.

Lemma filter_open_events (fs : list string) :
  List.filter is_open (map open_event fs) = map open_event fs.
Proof.
  induction fs as [|f fs IH]; [done|]. cbn [map List.filter].
  rewrite IH. unfold open_event. by destruct (HTML_REGEX f).
Qed.

Lemma filter_none {A} (P : A -> bool) (l : list A) :
  (forall x, In x l -> P x = false) -> List.filter P l = [].
Proof.
  induction l as [|x l IH]; [done|]. intros Hall. cbn [List.filter].
  rewrite (Hall x) by by left. apply IH. intros y Hy. apply Hall. by right.
Qed.

(** X6: in a run of an instance, every collected file is opened exactly
    once, when the hook fires and in the order of the files: a document
    by [generateHtmlScripts], a script by [readFile].  Nothing is opened
    later in the run, and no file is opened both ways. *)
Theorem every_file_is_opened_once (p : CheckSyntaxPlugin)
    (before acts : list action) (w0 w1 w : world) (c : Compilation)
    (evs_before evs0 evs : list event) :
  exec before (init p) = Some (w0, evs_before) ->
  step (AStart c) w0 = Some (w1, evs0) ->
  forallb in_run acts = true ->
  exec acts w1 = Some (w, evs) ->
  evs0 = map open_event (files (plugin w0) c) /\
  List.filter is_open (evs0 ++ evs) = map open_event (files (plugin w0) c) /\
  forall f, ~ (In (EvExtract f) (evs0 ++ evs) /\ In (EvRead f) (evs0 ++ evs)).
Proof.
  intros Hbefore Hstart Hall He.
  destruct (exec_events _ _ _ _ (init_ok p) Hbefore) as [Hok0 _].
  pose proof (step_ok _ _ _ _ Hstart Hok0) as Hok1.
  assert (evs0 = map open_event (files (plugin w0) c)) as Hevs0.
  { simpl in Hstart. destruct (is_running (hook w0)); [done|].
    injection Hstart as <- <-. apply (files_open_events (plugin w0)).
    apply files_admitted. }
  assert (List.filter is_open (evs0 ++ evs)
          = map open_event (files (plugin w0) c)) as Hopen.
  { rewrite List.filter_app, Hevs0, filter_open_events.
    rewrite (filter_none is_open evs); [by rewrite app_nil_r|].
    by eapply exec_no_open. }
  split_and!; [done|done|].
  intros f [Hx Hr].
  assert (In (EvExtract f) (map open_event (files (plugin w0) c))) as Hx'
    by (rewrite <- Hopen; by apply filter_In).
  assert (In (EvRead f) (map open_event (files (plugin w0) c))) as Hr'
    by (rewrite <- Hopen; by apply filter_In).
  apply in_map_iff in Hx' as (g & Hg & _).
  apply in_map_iff in Hr' as (g' & Hg' & _).
  unfold open_event in *.
  destruct (HTML_REGEX g) eqn:Ehg; [|done]. injection Hg as ->.
  destruct (HTML_REGEX g') eqn:Ehg'; [done|]. injection Hg' as ->.
  congruence.
Qed.

(** ** Where a pushed error comes from *)

Lemma tryParse_try_spec p code err :
  tryParse_try p code = Some err <-> parse code (ecmaVersion p) = Err err.
Proof.
  unfold tryParse_try. destruct (parse code (ecmaVersion p)); split;
    congruence.
Qed.

Lemma task_sound_config p p' t :
  same_config p p' -> task_sound p t -> task_sound p' t.
Proof.
  intros (Hv & _ & _ & Hex & _). unfold task_sound, fragment_sound.
  destruct t; by rewrite ?Hv, ?Hex.
Qed.

Lemma fragments_start_sound p f htmlScripts scripts :
  (forall s, In s htmlScripts -> In s scripts) ->
  Forall (fragment_sound p f scripts)
    (map fst (map (fragment_start p f) htmlScripts)).
Proof.
  induction htmlScripts as [|s rest IH]; intros Hsub; [constructor|].
  cbn [map]. constructor.
  - unfold fragment_start. destruct (checkIsExclude f (exclude p)) eqn:Hex;
      [done|]. cbn [negb]. unfold tryParse_enter.
    destruct (tryParse_try p s) as [err|] eqn:Ht; [|done]. simpl.
    apply tryParse_try_spec in Ht. split_and!; try done. apply Hsub. by left.
  - apply IH. intros s' Hs'. apply Hsub. by right.
Qed.

(** Closes a goal about a push in a trace that holds none. *)
Ltac no_push :=
  let Hin := fresh in intros ? ? Hin; simpl in Hin; intuition discriminate.

Lemma task_step_sound p j t t' p' evs :
  task_ok p t ->
  task_sound p t ->
  task_step p j t = Some (t', p', evs) ->
  task_sound p t' /\
  forall f d, In (EvPush f d) evs -> justified p f d.
Proof.
  intros Hok Hsound Hs. destruct t as [f|f fs|f|f code err| |e];
    simpl in Hs, Hok, Hsound; try done.
  - (* the document is read *)
    destruct (generateHtmlScripts f) as [htmlScripts|e] eqn:Hg;
      injection Hs as <- <- <-; [|done].
    split.
    + exists htmlScripts. split; [done|]. by apply fragments_start_sound.
    + by intros g d (_ & s & _ & ?)%fragments_start_events.
  - (* the inner Promise.all *)
    destruct Hsound as (htmlScripts & Hg & Hall).
    destruct (forallb fragment_done fs).
    + unfold check_js in Hs. destruct (JS_REGEX f);
        injection Hs as <- <- <-; (split; [done|]); no_push.
    + destruct (fs !! j) as [[code err|]|] eqn:Hj; try done.
      pose proof (Forall_lookup_1 _ _ _ _ Hall Hj) as (Hin & Hp & Hex).
      unfold tryParse_resume in Hs.
      destruct (generateError err code f (exclude p) (rootPath p))
        as [d|] eqn:Hd; injection Hs as <- <- <-.
      * split.
        { exists htmlScripts. split; [done|]. by apply Forall_insert. }
        intros g d' [[= <- <-]|[]]. exists code, err. split_and!; try done.
        right. destruct Hok as [_ Hh]. eauto.
      * split; [|done].
        exists htmlScripts. split; [done|]. by apply Forall_insert.
  - (* the script is read *)
    destruct (readFile f) as [code|e] eqn:Hr; [|by injection Hs as <- <- <-].
    unfold tryParse_enter in Hs.
    destruct (tryParse_try p code) as [err|] eqn:Ht;
      injection Hs as <- <- <-.
    + apply tryParse_try_spec in Ht. split; [done|]. no_push.
    + split; [done|]. no_push.
  - (* the error of a script is built *)
    destruct Hsound as [Hr Hp]. unfold tryParse_resume in Hs.
    destruct (generateError err code f (exclude p) (rootPath p))
      as [d|] eqn:Hd; injection Hs as <- <- <-; (split; [done|]); [|done].
    intros g d' [[= <- <-]|[]]. exists code, err. split_and!; try done.
    left. by destruct Hok as [_ Hj].
Qed.

Lemma justified_config p p' f d :
  same_config p p' -> justified p' f d -> justified p f d.
Proof.
  intros (Hv & _ & Hr & Hex & _). unfold justified, content.
  by rewrite Hv, Hr, Hex.
Qed.

Lemma push_in_pushed (evs : list event) f d :
  In (EvPush f d) evs -> In d (pushed evs).
Proof.
  intros Hin. unfold pushed. apply in_concat. exists [d]. split; [|by left].
  apply in_map_iff. by exists (EvPush f d).
Qed.

Lemma check_start_sound p f : task_sound p (fst (check_start f)).
Proof.
  unfold check_start, check_js. by destruct (HTML_REGEX f), (JS_REGEX f).
Qed.

Lemma step_sound a w w' evs :
  world_sound w ->
  step a w = Some (w', evs) ->
  world_sound w' /\
  forall f d, In (EvPush f d) evs -> justified (plugin w) f d.
Proof.
  intros (Hok & Hpool & Hstale) Hs.
  pose proof (step_ok _ _ _ _ Hs Hok) as Hok'.
  pose proof (step_plugin _ _ _ _ Hs) as [Hc _].
  destruct Hok as [Hokp Hoks].
  destruct a as [c|i j|i j|]; simpl in Hs.
  - destruct (is_running (hook w)); [done|]. injection Hs as <- <-.
    split.
    + split_and!; simpl; [done| |by apply Forall_app].
      apply Forall_forall. intros t Ht%list_elem_of_In.
      rewrite map_map in Ht. apply in_map_iff in Ht as (g & <- & _).
      apply check_start_sound.
    + intros f d Hev%push_in_pushed.
      destruct (files_started_spec (files (plugin w) c)) as (Hnone & _).
      simpl in Hnone. by rewrite Hnone in Hev.
  - destruct (pool w !! i) as [t|] eqn:Hi; [|done].
    destruct (task_step (plugin w) j t) as [[[t' p'] evs']|] eqn:Ht; [|done].
    injection Hs as <- <-. simpl in *.
    pose proof (Forall_lookup_1 _ _ _ _ Hokp Hi) as Ht_ok.
    pose proof (Forall_lookup_1 _ _ _ _ Hpool Hi) as Ht_sound.
    destruct (task_step_sound _ _ _ _ _ _ Ht_ok Ht_sound Ht) as [Hs' Hj].
    split; [|done]. split_and!; simpl; [done| |].
    + apply Forall_insert; [|by eapply task_sound_config].
      eapply Forall_impl; [done|]. intros ?. by apply task_sound_config.
    + eapply Forall_impl; [done|]. intros ?. by apply task_sound_config.
  - destruct (stale w !! i) as [t|] eqn:Hi; [|done].
    destruct (task_step (plugin w) j t) as [[[t' p'] evs']|] eqn:Ht; [|done].
    injection Hs as <- <-. simpl in *.
    pose proof (Forall_lookup_1 _ _ _ _ Hoks Hi) as Ht_ok.
    pose proof (Forall_lookup_1 _ _ _ _ Hstale Hi) as Ht_sound.
    destruct (task_step_sound _ _ _ _ _ _ Ht_ok Ht_sound Ht) as [Hs' Hj].
    split; [|done]. split_and!; simpl; [done| |].
    + eapply Forall_impl; [done|]. intros ?. by apply task_sound_config.
    + apply Forall_insert; [|by eapply task_sound_config].
      eapply Forall_impl; [done|]. intros ?. by apply task_sound_config.
  - destruct (is_running (hook w) && forallb is_done (pool w)); [|done].
    injection Hs as <- <-. split; [done|]. no_push.
Qed.

(** Along any schedule of an instance, every pushed error is justified. *)
Lemma exec_sound p acts w evs :
  exec acts (init p) = Some (w, evs) ->
  forall f d, In (EvPush f d) evs -> justified p f d.
Proof.
  intros He f d Hev.
  destruct (exec_invariant (fun _ => true)
    (fun w1 => same_config p (plugin w1) /\ world_sound w1)
    (fun ev => forall f d, ev = EvPush f d -> justified p f d))
    with (acts := acts) (w := init p) (w' := w) (evs := evs) as [_ Hq].
  - intros a w1 w2 evs1 _ [Hc Hw1] Hs.
    destruct (step_sound _ _ _ _ Hw1 Hs) as [Hw2 Hj]. split.
    + split; [|done]. eapply same_config_trans; [done|].
      by eapply step_plugin.
    + intros ev Hin g d' ->. eapply justified_config; [done|]. by apply Hj.
  - apply forallb_any.
  - split; [apply same_config_refl|].
    split_and!; [apply init_ok|constructor|constructor].
  - done.
  - by eapply Hq.
Qed.

(** X7: every error an instance ever pushes is what [generateError]
    returned, non-null, for a parse that threw, under the instance's
    version, on the content of a collected script or on a fragment of a
    collected document that [exclude] does not match. *)
Theorem pushed_errors_are_justified (p : CheckSyntaxPlugin)
    (acts : list action) (w : world) (evs : list event) (f : string)
    (d : ECMASyntaxError) :
  exec acts (init p) = Some (w, evs) ->
  In (EvPush f d) evs ->
  exists code err,
    parse code (ecmaVersion p) = Err err /\
    generateError err code f (exclude p) (rootPath p) = Some d /\
    ((JS_REGEX f = true /\ readFile f = Ok code) \/
     (HTML_REGEX f = true /\ checkIsExclude f (exclude p) = false /\
      exists htmlScripts,
        generateHtmlScripts f = Ok htmlScripts /\ In code htmlScripts)).
Proof.
  intros He Hev.
  destruct (exec_sound _ _ _ _ He _ _ Hev) as (code & err & Hc & Hp & Hg).
  by exists code, err.
Qed.



(** X9: a document that [exclude] matches never adds an error, whatever
    its fragments are and whatever [generateError] would answer. *)
Theorem excluded_page_adds_no_error (p : CheckSyntaxPlugin) (f : string)
    (acts : list action) (w : world) (evs : list event) :
  HTML_REGEX f = true ->
  checkIsExclude f (exclude p) = true ->
  exec acts (init p) = Some (w, evs) ->
  forall d, ~ In (EvPush f d) evs.
Proof.
  intros Hh Hex He d Hev.
  destruct (exec_sound _ _ _ _ He _ _ Hev)
    as (code & err & [[Hj _]|(_ & Hne & _)] & _).
  - apply html_not_js in Hh. congruence.
  - congruence.
Qed.

(** ** Why a run rejects *)

Lemma check_start_of f : task_of f (fst (check_start f)).
Proof.
  unfold check_start, check_js.
  destruct (HTML_REGEX f) eqn:Hh; [done|]. by destruct (JS_REGEX f) eqn:Hj.
Qed.

Lemma task_step_of f p j t t' p' evs :
  task_of f t ->
  task_step p j t = Some (t', p', evs) ->
  task_of f t'.
Proof.
  intros Hof Hs. destruct t as [g|g fs|g|g code err| |e];
    simpl in Hs, Hof; try done.
  - destruct Hof as [-> Hh].
    destruct (generateHtmlScripts f) eqn:Hg; injection Hs as <- <- <-;
      [done|by right].
  - subst g. destruct (forallb fragment_done fs).
    + unfold check_js in Hs.
      destruct (JS_REGEX f) eqn:Hj; by injection Hs as <- <- <-.
    + destruct (fs !! j) as [[code err|]|]; try done.
      destruct (tryParse_resume p f code err). by injection Hs as <- <- <-.
  - destruct Hof as [-> Hj].
    destruct (readFile f) eqn:Hr; [|injection Hs as <- <- <-; by left].
    by destruct (tryParse_enter p f a) as [[] ?]; injection Hs as <- <- <-.
  - destruct (tryParse_resume p g code err). by injection Hs as <- <- <-.
Qed.

Lemma run_of_start w0 c w1 evs0 :
  step (AStart c) w0 = Some (w1, evs0) ->
  run_of (files (plugin w0) c) w1.
Proof.
  simpl. destruct (is_running (hook w0)); [done|]. intros [= <- <-].
  split; [|done]. simpl.
  induction (files (plugin w0) c) as [|f fs IH]; simpl; constructor;
    [apply check_start_of|done].
Qed.

Lemma pool_of_step fs a w w' evs :
  in_run a = true ->
  Forall2 task_of fs (pool w) ->
  step a w = Some (w', evs) ->
  Forall2 task_of fs (pool w') /\
  forall i f e, pool w' !! i = Some (TRejected e) -> fs !! i = Some f ->
    failed_read f e.
Proof.
  intros Ha Hpool Hs.
  assert (Forall2 task_of fs (pool w')) as Hpool'.
  { destruct a as [c|i j|i j|]; [done| | |]; simpl in Hs.
    - destruct (pool w !! i) as [t|] eqn:Hi; [|done].
      destruct (task_step (plugin w) j t) as [[[t' p'] evs']|] eqn:Ht; [|done].
      injection Hs as <- <-.
      destruct (Forall2_lookup_r _ _ _ _ _ Hpool Hi) as (f & Hf & Hof).
      pose proof (task_step_of _ _ _ _ _ _ _ Hof Ht) as Hof'. simpl.
      rewrite <- (list_insert_id fs i f Hf). by apply Forall2_insert.
    - destruct (stale w !! i) as [t|]; [|done].
      destruct (task_step (plugin w) j t) as [[[t' p'] evs']|]; [|done].
      by injection Hs as <- <-.
    - destruct (is_running (hook w) && forallb is_done (pool w)); [|done].
      by injection Hs as <- <-. }
  split; [done|]. intros i f e Hi Hf.
  destruct (Forall2_lookup_r _ _ _ _ _ Hpool' Hi) as (g & Hg & Hof).
  rewrite Hf in Hg. by injection Hg as <-.
Qed.

Lemma pool_of_exec fs acts w w' evs :
  forallb in_run acts = true ->
  Forall2 task_of fs (pool w) ->
  exec acts w = Some (w', evs) ->
  Forall2 task_of fs (pool w').
Proof.
  intros Hall Hw He.
  destruct (exec_invariant in_run
    (fun w1 => Forall2 task_of fs (pool w1)) (fun _ => True))
    with (acts := acts) (w := w) (w' := w') (evs := evs) as [Hw' _];
    try done.
  intros a w1 w2 evs1 Ha H1 Hs. split; [|done].
  by destruct (pool_of_step _ _ _ _ _ Ha H1 Hs).
Qed.

(** Short of a report, a rejected hook carries the error of a failed
    read. *)
Lemma run_of_exec fs acts w w' evs :
  forallb in_run acts = true ->
  run_of fs w ->
  exec acts w = Some (w', evs) ->
  List.filter is_report evs = [] ->
  run_of fs w'.
Proof.
  revert w evs. induction acts as [|a acts IH]; simpl;
    intros w evs Hall Hw He Hnone.
  - by injection He as <- <-.
  - apply andb_true_iff in Hall as [Ha Hall].
    destruct (step a w) as [[w1 evs1]|] eqn:Hs; [|done].
    destruct (exec acts w1) as [[w2 evs2]|] eqn:Hx; [|done].
    injection He as <- <-. rewrite List.filter_app in Hnone.
    apply app_eq_nil in Hnone as [Hnone1 Hnone2].
    apply (IH w1 evs2); try done.
    destruct Hw as [Hpool Hhook].
    destruct (pool_of_step _ _ _ _ _ Ha Hpool Hs) as [Hpool1 Hwhy].
    split; [done|].
    destruct a as [c|i j|i j|]; [done| | |]; simpl in Hs.
    + destruct (pool w !! i) as [t|] eqn:Hi; [|done].
      destruct (task_step (plugin w) j t) as [[[t' p'] evs']|] eqn:Ht; [|done].
      injection Hs as <- <-. simpl in *.
      destruct (hook w); simpl; try done.
      destruct t'; simpl; try done.
      assert (i < length fs) as Hlt.
      { rewrite (Forall2_length _ _ _ Hpool). by eapply lookup_lt_Some. }
      apply lookup_lt_is_Some in Hlt as [f Hf]. exists f. split.
      * by eapply list_elem_of_In, list_elem_of_lookup_2.
      * apply (Hwhy i); [|done]. apply list_lookup_insert_eq.
        by eapply lookup_lt_Some.
    + destruct (stale w !! i) as [t|]; [|done].
      destruct (task_step (plugin w) j t) as [[[t' p'] evs']|]; [|done].
      by injection Hs as <- <-.
    + destruct (is_running (hook w) && forallb is_done (pool w)); [|done].
      by injection Hs as <- <-.
Qed.

(** X10: why a run rejects, [generateError] being a builder that
    returns.  A check rejects only because opening its file threw, and with
    the error thrown: [readFile] for a script, [generateHtmlScripts] for a
    document.  The promise of the callback rejects in two ways only: short
    of the call of [printErrors], with the error of such a failed open of
    one of the collected files; or by that call, with what [printErrors]
    threw.  So when every collected file can be opened, no check rejects,
    the run can always be brought to the call of [printErrors], and the
    promise rejects only if that call throws. *)
Theorem run_rejects_on_open_or_report (w0 w1 w : world) (c : Compilation)
    (evs0 evs : list event) (acts : list action) :
  step (AStart c) w0 = Some (w1, evs0) ->
  forallb in_run acts = true ->
  exec acts w1 = Some (w, evs) ->
  let fs := files (plugin w0) c in
  (forall i e, pool w !! i = Some (TRejected e) ->
     exists f, fs !! i = Some f /\ failed_read f e) /\
  (forall e, hook w = Rejected e ->
     (List.filter is_report evs = [] /\
      exists f, In f fs /\ failed_read f e) \/
     (exists errs v,
        In (EvReport errs v) evs /\ printErrors errs v = Err e)) /\
  ((forall f e, In f fs -> ~ failed_read f e) ->
   (forall i e, pool w !! i <> Some (TRejected e)) /\
   (forall e, hook w = Rejected e ->
      exists errs v,
        In (EvReport errs v) evs /\ printErrors errs v = Err e) /\
   exists acts' w' evs',
     forallb in_run acts' = true /\
     exec acts' w1 = Some (w', evs') /\
     exists errs v, In (EvReport errs v) evs').
Proof.
  intros Hstart Hall He fs.
  pose proof (run_of_start _ _ _ _ Hstart) as Hw1.
  destruct (run_inv_start _ _ _ _ Hstart) as (_ & Hrun & _).
  assert (forall acts w evs,
            forallb in_run acts = true -> exec acts w1 = Some (w, evs) ->
            forall e, hook w = Rejected e ->
              (List.filter is_report evs = [] /\
               exists f, In f fs /\ failed_read f e) \/
              (exists errs v,
                 In (EvReport errs v) evs /\ printErrors errs v = Err e))
    as Hwhy.
  { intros acts2 w2 evs2 Hall2 He2 e Hh.
    destruct (List.filter is_report evs2) as [|ev rest] eqn:Hf.
    - left. split; [done|].
      destruct (run_of_exec _ _ _ _ _ Hall2 Hw1 He2 Hf) as [_ Hhook].
      by rewrite Hh in Hhook.
    - right. destruct (reported evs2) as (errs & v & Hev); [by rewrite Hf|].
      exists errs, v. split; [done|].
      destruct (reported_all_done _ _ _ _ _ _ Hall2 He2 Hev) as [_ Hset].
      rewrite Hh in Hset. by destruct (printErrors errs v); simplify_eq. }
  assert (forall i e, pool w !! i = Some (TRejected e) ->
            exists f, fs !! i = Some f /\ failed_read f e) as Hchecks.
  { intros i e Hi. destruct Hw1 as [Hpool1 _].
    pose proof (pool_of_exec _ _ _ _ _ Hall Hpool1 He) as Hpool.
    destruct (Forall2_lookup_r _ _ _ _ _ Hpool Hi) as (f & Hf & Hof). eauto. }
  split_and!; [done|by eapply Hwhy|].
  intros Hreadable. split_and!.
  - intros i e Hi. destruct (Hchecks i e Hi) as (f & Hf & Hfail).
    apply (Hreadable f e); [|done].
    by eapply list_elem_of_In, list_elem_of_lookup_2.
  - intros e Hh.
    destruct (Hwhy _ _ _ Hall He e Hh) as [(_ & f & Hf & Hfail)|?]; [|done].
    by destruct (Hreadable f e Hf).
  - destruct (started_run_settles _ _ _ _ Hstart)
      as (acts' & w' & evs' & Hall' & He' & _ & Hh').
    exists acts', w', evs'. split_and!; try done.
    apply reported. intros Hnone. destruct Hh' as [Hres|[e Hrej]].
    + eapply exec_unreported; try done. by rewrite Hrun.
    + destruct (Hwhy _ _ _ Hall' He' e Hrej)
        as [(_ & f & Hf & Hfail)|(errs & v & Hev & _)].
      * by destruct (Hreadable f e Hf).
      * assert (In (EvReport errs v) (List.filter is_report evs')) as Hin
          by by apply filter_In.
        by rewrite Hnone in Hin.
Qed.

(** ** A document that cannot be read *)

Lemma no_rejection_seen_step a w w' evs :
  in_run a = true ->
  no_rejection_seen w ->
  step a w = Some (w', evs) ->
  no_rejection_seen w'.
Proof.
  intros Ha Hseen Hs. unfold no_rejection_seen in *.
  destruct a as [c|i j|i j|]; [done| | |]; simpl in Hs.
  - destruct (pool w !! i) as [t|] eqn:Hi; [|done].
    destruct (task_step (plugin w) j t) as [[[t' p'] evs']|] eqn:Ht; [|done].
    injection Hs as <- <-. simpl. intros Hrun.
    destruct (hook w) eqn:Hh; try done;
      destruct t'; try done; apply Forall_insert; auto; done.
  - destruct (stale w !! i) as [t|]; [|done].
    destruct (task_step (plugin w) j t) as [[[t' p'] evs']|]; [|done].
    by injection Hs as <- <-.
  - destruct (is_running (hook w) && forallb is_done (pool w)); [|done].
    injection Hs as <- <-. simpl. intros Hrun.
    pose proof (report_not_running (plugin w)) as Hn. by rewrite Hrun in Hn.
Qed.

Lemma page_stuck_step f e p j t t' p' evs :
  generateHtmlScripts f = Err e ->
  page_stuck f t ->
  task_step p j t = Some (t', p', evs) ->
  page_stuck f t'.
Proof.
  intros Hg Hst Hs. destruct t; simpl in Hst; try done. subst.
  simpl in Hs. rewrite Hg in Hs. by injection Hs as <- <- <-.
Qed.

Lemma page_stuck_not_done f ts :
  Exists (page_stuck f) ts -> forallb is_done ts = false.
Proof.
  induction 1 as [t ts Ht|t ts _ IH]; simpl.
  - by destruct t.
  - rewrite IH. apply andb_false_r.
Qed.

Lemma page_stuck_exec f e acts w w' evs :
  generateHtmlScripts f = Err e ->
  forallb in_run acts = true ->
  Exists (page_stuck f) (pool w) ->
  no_rejection_seen w ->
  hook w = Running \/ (exists e', hook w = Rejected e') ->
  exec acts w = Some (w', evs) ->
  (forall errs v, ~ In (EvReport errs v) evs) /\
  hook w' <> Resolved /\
  step AReport w' = None /\
  (forallb is_settled (pool w') = true -> exists e', hook w' = Rejected e').
Proof.
  intros Hg Hall Hx Hseen Hh He.
  destruct (exec_invariant in_run
    (fun w1 => Exists (page_stuck f) (pool w1) /\ no_rejection_seen w1 /\
               (hook w1 = Running \/ exists e', hook w1 = Rejected e'))
    (fun ev => forall errs v, ev <> EvReport errs v))
    with (acts := acts) (w := w) (w' := w') (evs := evs)
    as [(Hx' & Hseen' & Hh') Hq]; try done.
  { intros a w1 w2 evs1 Ha (Hx1 & Hseen1 & Hh1) Hs. split.
    - split_and!; [|by eapply no_rejection_seen_step|].
      + destruct a as [c|i j|i j|]; [done| | |]; simpl in Hs.
        * destruct (pool w1 !! i) as [t|] eqn:Hi; [|done].
          destruct (task_step (plugin w1) j t) as [[[t' p'] evs']|] eqn:Ht;
            [|done].
          injection Hs as <- <-. simpl.
          apply Exists_exists in Hx1
            as (s & [k Hk]%list_elem_of_lookup & Hst).
          apply Exists_exists. destruct (decide (i = k)) as [->|Hne].
          -- exists t'. split.
             { apply list_elem_of_lookup. exists k.
               apply list_lookup_insert_eq. by eapply lookup_lt_Some. }
             rewrite Hi in Hk. injection Hk as ->. by eapply page_stuck_step.
          -- exists s. split; [|done]. apply list_elem_of_lookup. exists k.
             by rewrite list_lookup_insert_ne.
        * destruct (stale w1 !! i) as [t|]; [|done].
          destruct (task_step (plugin w1) j t) as [[[t' p'] evs']|]; [|done].
          by injection Hs as <- <-.
        * by rewrite (page_stuck_not_done f), andb_false_r in Hs.
      + destruct a as [c|i j|i j|]; [done| | |]; simpl in Hs.
        * destruct (pool w1 !! i) as [t|]; [|done].
          destruct (task_step (plugin w1) j t) as [[[t' p'] evs']|]; [|done].
          injection Hs as <- <-. simpl.
          destruct Hh1 as [->|[e' ->]]; [|eauto].
          destruct t'; simpl; eauto.
        * destruct (stale w1 !! i) as [t|]; [|done].
          destruct (task_step (plugin w1) j t) as [[[t' p'] evs']|]; [|done].
          by injection Hs as <- <-.
        * by rewrite (page_stuck_not_done f), andb_false_r in Hs.
    - intros ev Hev errs v ->.
      destruct (step_report _ _ _ _ _ _ Hs Hev) as (_ & _ & _ & _ & _ & Hd & _).
      by rewrite (page_stuck_not_done f) in Hd. }
  split_and!.
  - intros errs v Hev. by eapply Hq.
  - by destruct Hh' as [->|[e' ->]].
  - simpl. by rewrite (page_stuck_not_done f), andb_false_r.
  - intros Hset. destruct Hh' as [Hrun|?]; [|done].
    apply Exists_exists in Hx' as (s & Hs & Hst).
    specialize (Hseen' Hrun). rewrite Forall_forall in Hseen'.
    specialize (Hseen' s Hs). rewrite forallb_forall in Hset.
    apply list_elem_of_In in Hs. specialize (Hset s Hs).
    destruct s; try done. by destruct (Hseen' e0).
Qed.

(** X11: a document that cannot be read makes the run reject, as a script
    does, and [exclude] makes no difference: the document is opened before
    [exclude] is looked at.  The run never reports, and once its checks
    have settled the hook has rejected. *)
Theorem unreadable_page_rejects_run (w0 w1 w : world) (c : Compilation)
    (evs0 evs : list event) (f : string) (e : Exn) (acts : list action) :
  step (AStart c) w0 = Some (w1, evs0) ->
  In f (files (plugin w0) c) ->
  HTML_REGEX f = true ->
  generateHtmlScripts f = Err e ->
  forallb in_run acts = true ->
  exec acts w1 = Some (w, evs) ->
  In (EvExtract f) evs0 /\
  (forall errs v, ~ In (EvReport errs v) evs) /\
  hook w <> Resolved /\
  step AReport w = None /\
  (forallb is_settled (pool w) = true -> exists e', hook w = Rejected e').
Proof.
  intros Hstart Hf Hh Hg Hall He.
  destruct (run_inv_start _ _ _ _ Hstart) as (_ & Hrun & Hpool).
  assert (fst (check_start f) = THtml f /\
          snd (check_start f) = [EvExtract f]) as [Ht Hev]
    by (unfold check_start; by rewrite Hh).
  split.
  { simpl in Hstart. destruct (is_running (hook w0)); [done|].
    injection Hstart as <- <-. apply in_concat. exists [EvExtract f].
    split; [|by left]. rewrite map_map. apply in_map_iff. by exists f. }
  eapply page_stuck_exec; try done.
  - rewrite Hpool. apply Exists_exists. exists (THtml f). split; [|done].
    apply list_elem_of_In. rewrite map_map. apply in_map_iff. by exists f.
  - intros _. rewrite Hpool. apply Forall_forall.
    intros t Hin%list_elem_of_In e'. rewrite map_map in Hin.
    apply in_map_iff in Hin as (g & <- & _). apply check_start_not_rejected.
  - by left.
Qed.

(** ** A build with nothing to check *)

(** X12: when no asset survives Collecting (none has a source, or all are
    matched by [excludeOutput], or none has one of the extensions), the
    hook starts no check and opens no file; nothing can be resumed, and the
    hook goes straight to [printErrors] with the list as it stands; the
    outcome of that call settles its promise. *)
Theorem nothing_collected_reports_at_once (w0 w1 : world) (c : Compilation)
    (evs0 : list event) :
  (forall a, In a (getAssets c) ->
     collected (plugin w0) (outputPath c) a = false) ->
  step (AStart c) w0 = Some (w1, evs0) ->
  files (plugin w0) c = [] /\
  evs0 = [] /\ pool w1 = [] /\
  (forall i j, step (AResume i j) w1 = None) /\
  step AReport w1 =
    Some ({| plugin := plugin w0; pool := []; stale := stale w1;
             hook := match printErrors (errors (plugin w0))
                             (ecmaVersion (plugin w0)) with
                     | Ok _ => Resolved
                     | Err e => Rejected e
                     end |},
          [EvReport (errors (plugin w0)) (ecmaVersion (plugin w0))]).
Proof.
  intros Hnone Hstart.
  assert (files (plugin w0) c = []) as Hfiles
    by (rewrite files_as_filter, filter_none; done).
  simpl in Hstart. destruct (is_running (hook w0)); [done|].
  rewrite Hfiles in Hstart. injection Hstart as <- <-.
  split_and!; try done.
Qed.

End Properties.

(** * The properties at work on the concrete host *)

(** Proves a closed boolean or decidable fact by evaluation. *)
Ltac by_evaluation := vm_compute; reflexivity.

(** States the value of a closed call as [H]. *)
Ltac evaluate call H :=
  let r := eval vm_compute in call in
  assert (call = r) as H by by_evaluation.

(** Offers the world and the trace of [H] as witnesses. *)
Ltac offer H :=
  lazymatch type of H with _ = Some (?a, ?b) => exists a, b end.

(** Finds one event in a concrete trace. *)
Ltac find_event := simpl; repeat (first [left; reflexivity | right]).

Lemma explicit_ecmaVersion_wins_witness :
  exists p : @CheckSyntaxPlugin Demo.host, ecmaVersion p = 2015 /\
    new_CheckSyntaxPlugin Demo.throwing_resolver
      (Demo.options (Some 2015) None None) = Ok p.
Proof.
  destruct (explicit_ecmaVersion_wins Demo.throwing_resolver
              (Demo.options (Some 2015) None None)) as (p & Hv & Hnew).
  exists p. split; [exact Hv|apply Hnew].
Defined.

Lemma tryParse_never_throws_witness :
  exists p' : @CheckSyntaxPlugin Demo.host,
    tryParse Demo.plain "dist/a.js" "a?.b" = Ok p' /\
    errors p' = [Demo.unexpected "dist/a.js"].
Proof.
  destruct (tryParse_never_throws Demo.plain "dist/a.js" "a?.b")
    as (p' & Hp & _ & He & _).
  exists p'. split; [exact Hp|exact He].
Defined.

Lemma missing_output_path_is_dist_witness :
  outputOptions_path Demo.one_script = None /\
  files Demo.plain Demo.one_script = ["dist/a.js"%string].
Proof.
  split; [reflexivity|].
  destruct (missing_output_path_is_dist Demo.plain Demo.one_script eq_refl)
    as (_ & Hfiles & _).
  refine (eq_trans Hfiles _). by_evaluation.
Defined.

Lemma sourceless_asset_is_dropped_witness :
  source (Demo.asset "b.js" false) = None /\
  files Demo.plain
    {| outputOptions_path := None;
       getAssets := [Demo.asset "a.js" true; Demo.asset "b.js" false] |}
  = ["dist/a.js"%string].
Proof.
  split; [reflexivity|].
  destruct (sourceless_asset_is_dropped Demo.plain None
              [Demo.asset "a.js" true] [] (Demo.asset "b.js" false) eq_refl)
    as (Hfiles & _).
  refine (eq_trans Hfiles _). by_evaluation.
Defined.

(** A build into [/srv/out] with two scripts, one of them listed in
    [excludeOutput]: the other one is collected, under the output path, and
    is the only file the run touches. *)
Lemma collecting_filters_output_witness :
  outputPath Node.built = "/srv/out"%string /\
  JS_REGEX "/srv/out/a.js" = true /\
  checkIsExclude "/srv/out/a.js" (excludeOutput Node.guarded) = true /\
  ~ In "/srv/out/a.js"%string (files Node.guarded Node.built) /\
  In "/srv/out/js/b.js"%string (files Node.guarded Node.built) /\
  @resolve Node.host "/srv/out" "" = render ["srv"%string; "out"%string] /\
  asset_path "/srv/out" (Node.asset "js/b.js?v=1")
  = render (["srv"%string; "out"%string] ++ ["js"%string; "b.js"%string]) /\
  exists (w : @world Node.host) evs,
    exec (AStart Node.built :: Node.to_report) (init Node.guarded)
    = Some (w, evs) /\
    errors (plugin w)
    = [("/srv/out/js/b.js"%string, "Unexpected token"%string)] /\
    forall ev, In ev evs -> event_file ev <> Some "/srv/out/a.js"%string.
Proof.
  destruct (collecting_filters_output Node.guarded Node.built)
    as (Hpath & _ & Hfiles & _ & Hnode & Hevents).
  assert (outputPath Node.built = "/srv/out"%string) as Hout
    by (by apply Hpath).
  assert (checkIsExclude "/srv/out/a.js" (excludeOutput Node.guarded) = true)
    as Hex by by_evaluation.
  destruct (Hnode Node.cwd (fun _ _ => eq_refl)) as [Hdir Hassets].
  destruct (Hassets (Node.asset "js/b.js?v=1")) as (_ & Hunder & _).
  rewrite Hout in Hdir, Hunder.
  evaluate (exec (AStart Node.built :: Node.to_report) (init Node.guarded)) He.
  split_and!; [exact Hout|by_evaluation|exact Hex| | |exact Hdir| |].
  - intros (a & _ & _ & _ & Hkept & _)%Hfiles. congruence.
  - apply Hfiles. exists (Node.asset "js/b.js?v=1").
    split_and!; [by right; left|by_evaluation..].
  - refine (eq_trans (Hunder eq_refl _) _); [|by_evaluation].
    vm_compute. intuition discriminate.
  - offer He. split_and!; [exact He|reflexivity|].
    intros ev Hev Hfile.
    destruct (Hevents _ _ _ He ev _ Hev Hfile) as [Hkept _]. congruence.
Defined.

(** The claim that every collected file lies under the output path fails
    for an asset with an absolute name: it is resolved on its own, and the
    file outside the output directory is collected, read and parsed. *)
Lemma absolute_name_leaves_output :
  @resolve Node.host (outputPath Node.stray) "" = "/repo/dist"%string /\
  files Node.plain Node.stray = ["/etc/x.js"%string] /\
  ~ (forall (p : @CheckSyntaxPlugin Node.host) c f,
       In f (files p c) ->
       exists rest,
         f = render (resolve_dir Node.cwd (outputPath c) ++ rest)) /\
  exists w,
    exec [AStart Node.stray; AResume 0 0] (init Node.plain)
    = Some (w, [EvRead "/etc/x.js";
                EvParse "/etc/x.js" "a?.b" (ecmaVersion Node.plain)]).
Proof.
  split_and!; [by_evaluation|by_evaluation| |eexists; by_evaluation].
  intros Hclaim.
  destruct (Hclaim Node.plain Node.stray "/etc/x.js"%string) as [rest Hrest].
  - by left.
  - vm_compute in Hrest. discriminate.
Qed.

Lemma ecmaVersion_is_constant_witness :
  new_CheckSyntaxPlugin Demo.throwing_resolver
    (Demo.options (Some 2015) None None) = Ok Demo.plain /\
  exists w evs,
    exec (AStart Demo.one_script :: Demo.to_report) (init Demo.plain)
    = Some (w, evs) /\
    ecmaVersion (plugin w) = 2015.
Proof.
  split; [reflexivity|].
  evaluate (exec (AStart Demo.one_script :: Demo.to_report) (init Demo.plain))
    He.
  offer He. split; [exact He|].
  by apply (ecmaVersion_is_constant Demo.throwing_resolver
              (Demo.options (Some 2015) None None) Demo.plain eq_refl)
    in He as [Hv _].
Defined.

(** Two builds with the same instance: the second run pushes one error and
    reports two. *)
Lemma errors_accumulate_across_runs_witness :
  exists w evs,
    exec Demo.two_builds (init Demo.plain) = Some (w, evs) /\
    errors (plugin w)
    = [Demo.unexpected "dist/a.js"; Demo.unexpected "dist/a.js"].
Proof.
  evaluate (exec Demo.two_builds (init Demo.plain)) He.
  offer He. split; [exact He|].
  by apply errors_accumulate_across_runs in He as [Herr _].
Defined.

(** The claim that every run starts from an empty list fails on the second
    build: its hook fires with the error of the first build still in the
    list, and its report prints that error next to its own. *)
Lemma errors_are_not_reset :
  ~ (forall acts w evs c w1 evs1,
       exec acts (init Demo.plain) = Some (w, evs) ->
       step (AStart c) w = Some (w1, evs1) ->
       errors (plugin w1) = []) /\
  exists w, exec Demo.two_builds (init Demo.plain)
            = Some (w, Demo.two_builds_trace).
Proof.
  split.
  - intros Hclaim.
    evaluate (exec (AStart Demo.one_script :: Demo.to_report)
                (init Demo.plain)) He.
    match type of He with _ = Some (?w, _) =>
      evaluate (step (AStart Demo.one_script) w) Hs end.
    by pose proof (Hclaim _ _ _ _ _ _ He Hs).
  - eexists. by_evaluation.
Qed.

(** The build of a script that is not on disk, next to one that is. *)
Lemma read_failure_rejects_run_witness :
  exists (w1 : @world Demo.host) evs0 w evs,
    step (AStart Demo.with_missing) (init Demo.plain) = Some (w1, evs0) /\
    In "dist/missing.js"%string (files (plugin (init Demo.plain))
                                   Demo.with_missing) /\
    JS_REGEX "dist/missing.js" = true /\
    readFile "dist/missing.js" = Err Demo.enoent /\
    forallb in_run Demo.until_settled = true /\
    exec Demo.until_settled w1 = Some (w, evs) /\
    hook w <> Resolved /\ step AReport w = None.
Proof.
  evaluate (step (AStart Demo.with_missing) (init Demo.plain)) Hs. offer Hs.
  match goal with |- context [exec ?acts ?w1] =>
    evaluate (exec acts w1) He end.
  offer He.
  assert (In "dist/missing.js"%string
            (files (plugin (init Demo.plain)) Demo.with_missing)) as Hin
    by by left.
  assert (JS_REGEX "dist/missing.js" = true) as Hjs by by_evaluation.
  assert (readFile "dist/missing.js" = Err Demo.enoent) as Hread
    by by_evaluation.
  assert (forallb in_run Demo.until_settled = true) as Hall by by_evaluation.
  destruct (read_failure_rejects_run _ _ _ _ _ _ _ _ _
              Hs Hin Hjs Hread Hall He) as (_ & Hh & Hr & _).
  by split_and!.
Defined.

(** The claim that a failed read is skipped fails on that build: the hook
    rejects with the error of the read, nothing is reported although the
    other script was checked and its error pushed, and no schedule makes
    the hook resolve. *)
Lemma read_failure_aborts_run :
  (exists w : @world Demo.host,
     exec (AStart Demo.with_missing :: Demo.until_settled) (init Demo.plain)
     = Some (w, Demo.with_missing_trace) /\
     pool w = [TRejected Demo.enoent; TDone] /\
     hook w = Rejected Demo.enoent /\
     step AReport w = None) /\
  ~ (exists acts w evs,
       forallb in_run acts = true /\
       exec (AStart Demo.with_missing :: acts) (init Demo.plain)
       = Some (w, evs) /\
       hook w = Resolved).
Proof.
  split.
  - eexists. split; [by_evaluation|]. by vm_compute.
  - intros (acts & w & evs & Hall & He & Hres).
    change (AStart Demo.with_missing :: acts)
      with ([AStart Demo.with_missing] ++ acts) in He.
    rewrite exec_app in He.
    evaluate (exec [AStart Demo.with_missing] (init Demo.plain)) Hs.
    rewrite Hs in He.
    match type of Hs with _ = Some (?w1, _) =>
      destruct (exec acts w1) as [[w2 evs2]|] eqn:Hx; [|done];
      assert (failing_run "dist/missing.js" w1) as Hw1
    end.
    { split; [simpl; by repeat constructor|by left]. }
    injection He as <- <-.
    assert (readFile "dist/missing.js" = Err Demo.enoent) as Hread
      by by_evaluation.
    by destruct (failing_run_exec _ _ _ _ _ _ Hread Hall Hw1 Hx)
      as (_ & _ & ? & _).
Qed.

(** A build whose script and page both match [exclude]: the page's
    fragments are not parsed, the script is. *)
Lemma exclude_guards_html_fragments_only_witness :
  checkIsExclude "dist/index.html" (exclude Demo.excluding) = true /\
  checkIsExclude "dist/a.js" (exclude Demo.excluding) = true /\
  exists (w1 : @world Demo.host) evs0 w evs,
    step (AStart Demo.script_and_page) (init Demo.excluding)
    = Some (w1, evs0) /\
    exec Demo.excluding_to_report w1 = Some (w, evs) /\
    hook w = Resolved /\
    (forall code v, ~ In (EvParse "dist/index.html" code v) (evs0 ++ evs)) /\
    In (EvParse "dist/a.js" "a?.b" (ecmaVersion Demo.excluding)) evs.
Proof.
  assert (checkIsExclude "dist/index.html" (exclude Demo.excluding) = true)
    as Hpage by by_evaluation.
  assert (checkIsExclude "dist/a.js" (exclude Demo.excluding) = true)
    as Hscript by by_evaluation.
  split; [exact Hpage|]. split; [exact Hscript|].
  evaluate (step (AStart Demo.script_and_page) (init Demo.excluding)) Hs.
  offer Hs.
  match goal with |- context [exec ?acts ?w1] =>
    evaluate (exec acts w1) He end.
  offer He.
  split_and!; [exact Hs|exact He|reflexivity| |].
  - destruct (exclude_guards_html_fragments_only Demo.excluding
                "dist/index.html" Hpage) as [Hhtml _].
    assert (HTML_REGEX "dist/index.html" = true) as Hh by by_evaluation.
    eapply (Hhtml Hh
              (AStart Demo.script_and_page :: Demo.excluding_to_report)).
    by_evaluation.
  - destruct (exclude_guards_html_fragments_only Demo.excluding
                "dist/a.js" Hscript) as [_ Hjs].
    assert (JS_REGEX "dist/a.js" = true) as Hj by by_evaluation.
    assert (@readFile Demo.host "dist/a.js" = Ok "a?.b"%string) as Hread
      by by_evaluation.
    assert (forallb in_run Demo.excluding_to_report = true) as Hall
      by by_evaluation.
    refine (Hjs Hj (init Demo.excluding) Demo.script_and_page _ _
              Demo.excluding_to_report _ _ _ eq_refl Hs _ Hread Hall He
              (or_introl eq_refl)).
    by left.
Defined.

(** The claim that a file matched by [exclude] is never parsed fails for
    scripts: the script of that build is matched and parsed. *)
Lemma excluded_script_is_parsed :
  ~ (forall f, checkIsExclude f (exclude Demo.excluding) = true ->
       forall acts w evs, exec acts (init Demo.excluding) = Some (w, evs) ->
         forall code v, ~ In (EvParse f code v) evs) /\
  checkIsExclude "dist/a.js" (exclude Demo.excluding) = true /\
  exists w,
    exec [AStart Demo.script_and_page; AResume 0 0] (init Demo.excluding)
    = Some (w, [EvRead "dist/a.js"; EvExtract "dist/index.html";
                EvParse "dist/a.js" "a?.b" (ecmaVersion Demo.excluding)]).
Proof.
  assert (exists w,
    exec [AStart Demo.script_and_page; AResume 0 0] (init Demo.excluding)
    = Some (w, [EvRead "dist/a.js"; EvExtract "dist/index.html";
                EvParse "dist/a.js" "a?.b" (ecmaVersion Demo.excluding)]))
    as [w Hw] by (eexists; by_evaluation).
  assert (checkIsExclude "dist/a.js" (exclude Demo.excluding) = true)
    as Hscript by by_evaluation.
  split_and!; [|exact Hscript|by exists w].
  intros Hclaim.
  eapply (Hclaim "dist/a.js"%string Hscript _ _ _ Hw). by do 2 right; left.
Qed.

(** A first build of a script and a page, run to its report: both errors
    are in the report, and the reporter, which throws when it is given
    errors, rejects the promise of the callback. *)
Lemma report_waits_for_every_check_witness :
  exists (w1 : @world Demo.host) evs0 w evs,
    step (AStart Demo.script_and_page) (init Demo.plain) = Some (w1, evs0) /\
    forallb in_run Demo.page_to_report = true /\
    exec Demo.page_to_report w1 = Some (w, evs) /\
    In (EvReport [Demo.unexpected "dist/index.html";
                  Demo.unexpected "dist/a.js"] 2015) evs /\
    [Demo.unexpected "dist/index.html"; Demo.unexpected "dist/a.js"] ≡ₚ
    [Demo.unexpected "dist/a.js"; Demo.unexpected "dist/index.html"] /\
    hook w = Rejected Demo.incompatible.
Proof.
  evaluate (step (AStart Demo.script_and_page) (init Demo.plain)) Hs.
  offer Hs.
  match goal with |- context [exec ?acts ?w1] =>
    evaluate (exec acts w1) He end.
  offer He.
  match type of He with _ = Some (_, ?evs) =>
    assert (In (EvReport [Demo.unexpected "dist/index.html";
                          Demo.unexpected "dist/a.js"] 2015) evs) as Hin
      by find_event
  end.
  assert (forallb in_run Demo.page_to_report = true) as Hall by by_evaluation.
  destruct (report_waits_for_every_check _ _ _ _ _ _ _ _ _ Hs Hall He Hin)
    as (acts1 & acts2 & wa & evsa & _ & _ & _ & _ & _ & _ & _
        & Hfirst & Hres & _).
  split_and!; [exact Hs|exact Hall|exact He|exact Hin| |exact Hres].
  apply Hfirst. by_evaluation.
Defined.

(** * The further properties at work on the concrete host *)

(** One script emitted under two queries is collected twice. *)
Lemma files_keep_order_and_duplicates_witness :
  files Demo.plain Demo.twice = ["dist/a.js"; "dist/a.js"]%string.
Proof.
  destruct (files_keep_order_and_duplicates Demo.plain Demo.twice)
    as (Hfiles & _).
  refine (eq_trans Hfiles _). by_evaluation.
Defined.

Lemma strip_query_cuts_at_first_mark_witness :
  ~ In "?"%char (String.list_ascii_of_string "a.js") /\
  strip_query "a.js?v=1&w=?" = "a.js"%string.
Proof.
  assert (~ In "?"%char (String.list_ascii_of_string "a.js")) as Hclean
    by (vm_compute; intuition discriminate).
  split; [exact Hclean|].
  destruct (strip_query_cuts_at_first_mark "a.js" Hclean) as (_ & Hcut & _).
  exact (Hcut "v=1&w=?"%string).
Defined.

(** A build of a script and a page, run to its report: one report, of two
    errors, and the reporter throws. *)
Lemma hook_reports_at_most_once_witness :
  exists (w1 : @world Demo.host) evs0 w evs,
    step (AStart Demo.script_and_page) (init Demo.plain) = Some (w1, evs0) /\
    forallb in_run Demo.page_to_report = true /\
    exec Demo.page_to_report w1 = Some (w, evs) /\
    In (EvReport [Demo.unexpected "dist/index.html";
                  Demo.unexpected "dist/a.js"] 2015) evs /\
    length (List.filter is_report evs) <= 1 /\
    hook w = Rejected Demo.incompatible.
Proof.
  evaluate (step (AStart Demo.script_and_page) (init Demo.plain)) Hs.
  offer Hs.
  match goal with |- context [exec ?acts ?w1] =>
    evaluate (exec acts w1) He end.
  offer He.
  assert (forallb in_run Demo.page_to_report = true) as Hall by by_evaluation.
  match type of He with _ = Some (_, ?evs) =>
    assert (In (EvReport [Demo.unexpected "dist/index.html";
                          Demo.unexpected "dist/a.js"] 2015) evs) as Hin
      by find_event
  end.
  destruct (hook_reports_at_most_once _ _ _ _ _ _ _ Hs Hall He)
    as (_ & Hcount & _ & Hsettled & _).
  split_and!; [exact Hs|exact Hall|exact He|exact Hin|exact Hcount|].
  exact (Hsettled _ _ Hin).
Defined.

(** The same run resumes its two checks five times, the work they had. *)
Lemma every_run_ends_witness :
  exists (w1 : @world Demo.host) evs0 w evs,
    step (AStart Demo.script_and_page) (init Demo.plain) = Some (w1, evs0) /\
    forallb in_run Demo.page_to_report = true /\
    exec Demo.page_to_report w1 = Some (w, evs) /\
    forallb is_settled (pool w) = true /\
    length (List.filter is_resume Demo.page_to_report) = 5 /\
    workload (plugin w1) (pool w1) = 5.
Proof.
  evaluate (step (AStart Demo.script_and_page) (init Demo.plain)) Hs.
  offer Hs.
  match goal with |- context [exec ?acts ?w1] =>
    evaluate (exec acts w1) He end.
  offer He.
  assert (forallb in_run Demo.page_to_report = true) as Hall by by_evaluation.
  destruct (every_run_ends _ _ _ _ Hs) as [Hbound _].
  destruct (Hbound _ _ _ Hall He) as [_ Hexact].
  split_and!; [exact Hs|exact Hall|exact He|by_evaluation|by_evaluation|].
  rewrite <- Hexact; by_evaluation.
Defined.

(** The second build of a script and a page opens each of them once. *)
Lemma every_file_is_opened_once_witness :
  exists (w0 : @world Demo.host) evs_before w1 evs0 w evs,
    exec (AStart Demo.one_script :: Demo.to_report) (init Demo.plain)
    = Some (w0, evs_before) /\
    step (AStart Demo.script_and_page) w0 = Some (w1, evs0) /\
    forallb in_run Demo.page_to_report = true /\
    exec Demo.page_to_report w1 = Some (w, evs) /\
    List.filter is_open (evs0 ++ evs)
    = [EvRead "dist/a.js"; EvExtract "dist/index.html"].
Proof.
  evaluate (exec (AStart Demo.one_script :: Demo.to_report) (init Demo.plain))
    Hb.
  offer Hb.
  match goal with |- context [step ?a ?w0] =>
    evaluate (step a w0) Hs end.
  offer Hs.
  match goal with |- context [exec Demo.page_to_report ?w1] =>
    evaluate (exec Demo.page_to_report w1) He end.
  offer He.
  assert (forallb in_run Demo.page_to_report = true) as Hall by by_evaluation.
  destruct (every_file_is_opened_once _ _ _ _ _ _ _ _ _ _ Hb Hs Hall He)
    as (_ & Hopen & _).
  split_and!; [exact Hb|exact Hs|exact Hall|exact He|].
  refine (eq_trans Hopen _). by_evaluation.
Defined.

(** The error of the script in that build stems from its optional chain. *)
Lemma pushed_errors_are_justified_witness :
  exists (w : @world Demo.host) evs,
    exec (AStart Demo.one_script :: Demo.to_report) (init Demo.plain)
    = Some (w, evs) /\
    In (EvPush "dist/a.js" (Demo.unexpected "dist/a.js")) evs /\
    exists code (err : @AcornParseError Demo.host),
      parse code (ecmaVersion Demo.plain) = Err err /\
      @readFile Demo.host "dist/a.js" = Ok code.
Proof.
  evaluate (exec (AStart Demo.one_script :: Demo.to_report) (init Demo.plain))
    He.
  offer He.
  match type of He with _ = Some (_, ?evs) =>
    assert (In (EvPush "dist/a.js" (Demo.unexpected "dist/a.js")) evs)
      as Hin by find_event
  end.
  destruct (pushed_errors_are_justified _ _ _ _ _ _ He Hin)
    as (code & err & Hp & _ & [[_ Hr]|(Hh & _)]).
  - split_and!; [exact He|exact Hin|]. by exists code, err.
  - by vm_compute in Hh.
Defined.


(** The excluded page of [excluding] pushes nothing. *)
Lemma excluded_page_adds_no_error_witness :
  HTML_REGEX "dist/index.html" = true /\
  checkIsExclude "dist/index.html" (exclude Demo.excluding) = true /\
  exists (w : @world Demo.host) evs,
    exec (AStart Demo.script_and_page :: Demo.excluding_to_report)
      (init Demo.excluding) = Some (w, evs) /\
    forall d, ~ In (EvPush "dist/index.html" d) evs.
Proof.
  assert (HTML_REGEX "dist/index.html" = true) as Hh by by_evaluation.
  assert (checkIsExclude "dist/index.html" (exclude Demo.excluding) = true)
    as Hex by by_evaluation.
  split; [exact Hh|]. split; [exact Hex|].
  evaluate (exec (AStart Demo.script_and_page :: Demo.excluding_to_report)
              (init Demo.excluding)) He.
  offer He. split; [exact He|].
  exact (excluded_page_adds_no_error _ _ _ _ _ Hh Hex He).
Defined.

(** The build with the missing script rejects, short of a report, with the
    error of its read. *)
Lemma run_rejects_on_open_or_report_witness :
  exists (w1 : @world Demo.host) evs0 w evs,
    step (AStart Demo.with_missing) (init Demo.plain) = Some (w1, evs0) /\
    forallb in_run Demo.until_settled = true /\
    exec Demo.until_settled w1 = Some (w, evs) /\
    hook w = Rejected Demo.enoent /\
    List.filter is_report evs = [] /\
    exists f, files Demo.plain Demo.with_missing !! 0 = Some f /\
              failed_read f Demo.enoent.
Proof.
  evaluate (step (AStart Demo.with_missing) (init Demo.plain)) Hs. offer Hs.
  match goal with |- context [exec ?acts ?w1] =>
    evaluate (exec acts w1) He end.
  offer He.
  assert (forallb in_run Demo.until_settled = true) as Hall by by_evaluation.
  destruct (run_rejects_on_open_or_report _ _ _ _ _ _ _ Hs Hall He)
    as (Hcheck & _).
  split_and!; [exact Hs|exact Hall|exact He|reflexivity|reflexivity|].
  exact (Hcheck 0 Demo.enoent eq_refl).
Defined.

(** A page that is not on disk rejects the run although [exclude] matches
    it. *)
Lemma unreadable_page_rejects_run_witness :
  checkIsExclude "dist/gone.html" (exclude Demo.excluding_gone) = true /\
  exists (w1 : @world Demo.host) evs0 w evs,
    step (AStart Demo.gone_page) (init Demo.excluding_gone)
    = Some (w1, evs0) /\
    In "dist/gone.html"%string
      (files (plugin (init Demo.excluding_gone)) Demo.gone_page) /\
    HTML_REGEX "dist/gone.html" = true /\
    generateHtmlScripts "dist/gone.html" = Err Demo.enoent /\
    forallb in_run Demo.resume_once = true /\
    exec Demo.resume_once w1 = Some (w, evs) /\
    forallb is_settled (pool w) = true /\
    exists e', hook w = Rejected e'.
Proof.
  split; [by_evaluation|].
  evaluate (step (AStart Demo.gone_page) (init Demo.excluding_gone)) Hs.
  offer Hs.
  match goal with |- context [exec ?acts ?w1] =>
    evaluate (exec acts w1) He end.
  offer He.
  assert (In "dist/gone.html"%string
            (files (plugin (init Demo.excluding_gone)) Demo.gone_page))
    as Hin by by left.
  assert (HTML_REGEX "dist/gone.html" = true) as Hh by by_evaluation.
  assert (generateHtmlScripts "dist/gone.html" = Err Demo.enoent) as Hg
    by by_evaluation.
  assert (forallb in_run Demo.resume_once = true) as Hall
    by by_evaluation.
  destruct (unreadable_page_rejects_run _ _ _ _ _ _ _ _ _
              Hs Hin Hh Hg Hall He) as (_ & _ & _ & _ & Hrej).
  match type of He with _ = Some (?w, _) =>
    assert (forallb is_settled (pool w) = true) as Hset by by_evaluation
  end.
  split_and!; [exact Hs|exact Hin|exact Hh|exact Hg|exact Hall|exact He
              |exact Hset|exact (Hrej Hset)].
Defined.

(** A build that emits a style sheet only reports at once. *)
Lemma nothing_collected_reports_at_once_witness :
  (forall a, In a (getAssets Demo.styles_only) ->
     collected (plugin (init Demo.plain)) (outputPath Demo.styles_only) a
     = false) /\
  exists (w1 : @world Demo.host) evs0,
    step (AStart Demo.styles_only) (init Demo.plain) = Some (w1, evs0) /\
    evs0 = [] /\ pool w1 = [].
Proof.
  assert (forall a, In a (getAssets Demo.styles_only) ->
            collected (plugin (init Demo.plain))
              (outputPath Demo.styles_only) a = false) as Hnone.
  { intros a [<-|[]]. by_evaluation. }
  split; [exact Hnone|].
  evaluate (step (AStart Demo.styles_only) (init Demo.plain)) Hs. offer Hs.
  destruct (nothing_collected_reports_at_once _ _ _ _ Hnone Hs)
    as (_ & Hevs & Hpool & _).
  split_and!; [exact Hs|exact Hevs|exact Hpool].
Defined.
